(** * seismiqb notebooks: slice exporter, metric reporter, results summarizer

    A shallow embedding of the three notebooks of the repository

    - [datasets/02_Cube_demo.ipynb]        (slice exporter),
    - the "Metrics for cubes" notebook      (metric reporter),
    - [models/Carcass_interpolation/02_Iterative_results.ipynb]
                                            (iterative-results summarizer),

    together with the properties their specification states about them.
    Python integers are [Z]; Python strings are [string]; a [dict] is an
    association list in insertion order; calls into the [seismiqb] library,
    [os], [print] and [matplotlib] are parameters of the development. *)

From Stdlib Require Import ZArith QArith String Ascii List Lia Bool.
From stdpp Require Import gmap strings list pretty.

Local Open Scope string_scope.
Local Open Scope Z_scope.

(** ** Python primitives used by the notebooks *)

Module Py.

(** Exceptions the notebooks can meet.  [OtherError] stands for whatever an
    external collaborator raises. *)
Inductive exn : Type :=
| ZeroDivisionError
| ValueError
| IndexError
| KeyError
| NameError
| FileExistsError
| OtherError (msg : string).

#[global] Instance exn_eq_dec : EqDecision exn.
Proof. solve_decision. Defined.

(** [a // b] on Python ints: floor division, raising on a zero divisor.
    [Z.div] rounds towards minus infinity as Python does. *)
Definition floordiv (a b : Z) : exn + Z :=
  if b =? 0 then inl ZeroDivisionError else inr (a / b).

(** Number of elements of [range(start, stop, step)] for [step <> 0]. *)
Definition range_len (start stop step : Z) : Z :=
  if 0 <? step
  then (if start <? stop then (stop - start - 1) / step + 1 else 0)
  else (if stop <? start then (start - stop - 1) / (- step) + 1 else 0).

(** [list(range(start, stop, step))]; a zero step raises [ValueError]. *)
Definition range (start stop step : Z) : exn + list Z :=
  if step =? 0 then inl ValueError
  else inr ((fun k : nat => start + Z.of_nat k * step)
              <$> seq 0 (Z.to_nat (range_len start stop step))).

(** [sep.join(parts)]. *)
Definition join (sep : string) (parts : list string) : string :=
  String.concat sep parts.

(** [s.startswith(p)]. *)
Definition startswith (s p : string) : bool := String.prefix p s.

(** [s.split(sep)] for a one-character separator: the pieces between the
    occurrences of [sep], in order; a string without [sep] gives one piece. *)
Fixpoint split (sep : ascii) (s : string) : list string :=
  match s with
  | EmptyString => [EmptyString]
  | String c rest =>
      if Ascii.eqb c sep then EmptyString :: split sep rest
      else match split sep rest with
           | piece :: pieces => String c piece :: pieces
           | [] => [String c EmptyString]
           end
  end.

(** Number of occurrences of a character in a string. *)
Fixpoint count (sep : ascii) (s : string) : nat :=
  match s with
  | EmptyString => 0%nat
  | String c rest => ((if Ascii.eqb c sep then 1 else 0) + count sep rest)%nat
  end.

(** [xs[i]] on a list, raising [IndexError] out of range (non-negative
    indices only, which is all the notebooks use). *)
Definition getitem {A : Type} (xs : list A) (i : nat) : exn + A :=
  match xs !! i with
  | Some x => inr x
  | None => inl IndexError
  end.

End Py.

Import Py.

(** ** Slice exporter: sample locations along one axis

    [[
        length = geometry.lens[i]
        step = length // N
        locs = list(range(step // 3, length, step))
    ]] *)

Definition locs (length N : Z) : exn + list Z :=
  match floordiv length N with
  | inl e => inl e
  | inr step => range (step / 3) length step
  end.

(** ** Values of the parameter dictionaries

    [local_kwargs], [support_kwargs] and [plot_kwargs] hold [None], ints,
    strings and a tuple of ints.  A dict is kept as the list of its items in
    insertion order, which is the order [kwargs.items()] yields. *)

Inductive PyVal : Type :=
| PyNone
| PyInt (n : Z)
| PyStr (s : string)
| PyIntTuple (items : list Z).

Abbreviation Kwargs := (list (string * PyVal)).

(** [str(value)]. *)
Definition py_str (v : PyVal) : string :=
  match v with
  | PyNone => "None"
  | PyInt n => pretty n
  | PyStr s => s
  | PyIntTuple items =>
      "(" ++ join ", " (pretty <$> items)
          ++ (if decide (length items = 1%nat) then "," else "") ++ ")"
  end.

(** [s * n] on a string. *)
Fixpoint py_repeat (s : string) (n : nat) : string :=
  match n with
  | O => ""
  | S n' => s ++ py_repeat s n'
  end.

(** [enumerate(xs)]. *)
Definition enumerate {A : Type} (xs : list A) : list (nat * A) :=
  zip (seq 0 (length xs)) xs.

(** ** Computations that may raise and that act on a state

    A computation takes the state and gives back either the exception it
    raised or its value, with the state reached.  Nothing after a raised
    exception runs: the notebooks catch [FileExistsError] around [os.mkdir]
    and nothing else. *)

Definition M (St A : Type) : Type := St -> (exn + A) * St.

Definition ret {St A} (a : A) : M St A := fun s => (inr a, s).

Definition raise {St A} (e : exn) : M St A := fun s => (inl e, s).

Definition bind {St A B} (m : M St A) (k : A -> M St B) : M St B :=
  fun s => match m s with
           | (inl e, s') => (inl e, s')
           | (inr a, s') => k a s'
           end.

(** A pure operation that may raise. *)
Definition lift {St A} (r : exn + A) : M St A := fun s => (r, s).

Declare Scope py_scope.
Delimit Scope py_scope with py.
Notation "x <- m ;; k" := (bind m (fun x => k))
  (at level 20, m at level 99, k at level 200, only parsing) : py_scope.
Notation "m ;;; k" := (bind m (fun _ => k))
  (at level 100, k at level 200, only parsing, right associativity) : py_scope.
Local Open Scope py_scope.

(** [try: m / except FileExistsError: pass]. *)
Definition except_FileExistsError_pass {St} (m : M St unit) : M St unit :=
  fun s => match m s with
           | (inl FileExistsError, s') => (inr tt, s')
           | other => other
           end.

(** [for x in xs: body(x)]. *)
Fixpoint for_each {St A} (xs : list A) (body : A -> M St unit) : M St unit :=
  match xs with
  | [] => ret tt
  | x :: rest => body x ;;; for_each rest body
  end.

(** A [for] loop whose body rebinds variables that are read after the loop:
    their values are passed from one iteration to the next. *)
Fixpoint for_fold {St A V} (xs : list A) (body : V -> A -> M St V) (vars : V)
  : M St V :=
  match xs with
  | [] => ret vars
  | x :: rest => vars' <- body vars x ;; for_fold rest body vars'
  end.

(** ** The external collaborators

    Everything the notebooks call and do not define: the [seismiqb] classes,
    [os.mkdir], [print] and [plt.show].  Each call acts on the outside world
    (file system, display) and may raise. *)

Class Seismiqb : Type := {
  World : Type;
  Geometry : Type;
  GeometryMetrics : Type;
  MetricResult : Type;
  (** attributes of a geometry handle; the extents in [lens] are taken as
      Python ints (with numpy integers [length // 0] would be 0 with a
      warning instead of raising [ZeroDivisionError]) *)
  short_name : Geometry -> string;
  index_headers : Geometry -> list string;
  lens : Geometry -> list Z;
  geometry_str : Geometry -> string;
  (** [SeismicGeometry(path)] and [GeometryMetrics(geometry)] *)
  new_geometry : string -> World -> (exn + Geometry) * World;
  new_metrics : Geometry -> World -> (exn + GeometryMetrics) * World;
  (** [geometry.show_slide(loc, axis=, show=, savepath=)] *)
  show_slide :
    Geometry -> Z -> nat -> bool -> string -> World -> (exn + unit) * World;
  (** [gm.evaluate(metric_name, **kwargs, plot=True, show_plot=,
      plot_kwargs=, savepath=)] *)
  evaluate :
    GeometryMetrics -> string -> Kwargs -> bool -> Kwargs -> string ->
    World -> (exn + MetricResult) * World;
  (** [gm.evaluate('quality_map', quantiles=, agg=, computed_metrics=,
      plot=True, show_plot=, plot_kwargs=, savepath=)] *)
  evaluate_quality_map :
    GeometryMetrics -> list Q -> PyVal -> list MetricResult -> bool ->
    Kwargs -> string -> World -> (exn + MetricResult) * World;
  (** [save_point_cloud(metric, save_path, geometry)] *)
  save_point_cloud :
    MetricResult -> string -> Geometry -> World -> (exn + unit) * World;
  os_mkdir : string -> World -> (exn + unit) * World;
  py_print : string -> World -> (exn + unit) * World;
  (** [plt.show()]; the metric notebook never imports [plt], so this is
      whatever the name is bound to in the running kernel *)
  plt_show : World -> (exn + unit) * World
}.

(** One entry per external call, in the order the calls return. *)
Inductive Event `{Seismiqb} : Type :=
| EvGeometry (path : string)
| EvMetrics
| EvMkdir (path : string)
| EvPrint (text : string)
| EvShowSlide (loc : Z) (axis : nat) (show : bool) (savepath : string)
| EvEvaluate (metric_name : string) (kwargs : Kwargs) (show_plot : bool)
    (plot_kwargs : Kwargs) (savepath : string) (outcome : exn + MetricResult)
| EvQualityMap (quantiles : list Q) (agg : PyVal)
    (computed_metrics : list MetricResult) (show_plot : bool)
    (plot_kwargs : Kwargs) (savepath : string)
| EvSavePointCloud (metric : MetricResult) (save_path : string)
| EvPltShow.

(** State of a notebook run: the outside world and the calls made so far. *)
Record Run `{Seismiqb} : Type := mkRun { world : World; log : list Event }.

(** Perform an external call and record it. *)
Definition call `{Seismiqb} {A} (ev : exn + A -> Event)
    (f : World -> (exn + A) * World) : M Run A :=
  fun s => let '(r, w') := f (world s) in
           (r, {| world := w'; log := log s ++ [ev r] |}).

(** [try: os.mkdir(path) / except FileExistsError: pass] *)
Definition mkdir_exist_ok `{Seismiqb} (path : string) : M Run unit :=
  except_FileExistsError_pass (call (fun _ => EvMkdir path) (os_mkdir path)).

(** [[
    if SHOW:
        print('▆'*130); print('▆'*130);
        print(geometry)
    ]]
    as both cube notebooks have it. *)
Definition show_geometry `{Seismiqb} (show : bool) (geometry : Geometry)
  : M Run unit :=
  if show
  then
    let banner := py_repeat "▆" 130 in
    call (fun _ => EvPrint banner) (py_print banner) ;;;
    call (fun _ => EvPrint banner) (py_print banner) ;;;
    call (fun _ => EvPrint (geometry_str geometry))
         (py_print (geometry_str geometry))
  else ret tt.

(** ** Slice exporter ([datasets/02_Cube_demo.ipynb]) *)

Module SliceExporter.

(** The notebook's parameters: [paths] (the sorted result of the glob),
    [N], [script_dir] and [SHOW]. *)
Record Config : Type := {
  paths : list string;
  N : Z;
  script_dir : string;
  SHOW : bool
}.

(** The values written in the notebook; [paths] is what the glob found. *)
Definition notebook_config (paths : list string) : Config :=
  {| paths := paths; N := 5; script_dir := "cube_demo"; SHOW := false |}.

Section Cells.
Context `{Seismiqb}.
Variable cfg : Config.

(** [[
    paths = sorted(glob(...))
    [print(path) for path in paths]
    ]] *)
Definition cell_paths : M Run unit :=
  for_each (paths cfg) (fun path => call (fun _ => EvPrint path) (py_print path)).

(** [[
    script_dir = 'cube_demo'
    try: os.mkdir(script_dir)
    except FileExistsError: pass
    ]] *)
Definition cell_script_dir : M Run unit :=
  mkdir_exist_ok (script_dir cfg).

(** [[
    for loc in locs:
        save_path = '/'.join((cube_dir, f'{idx}-{loc}.png'))
        geometry.show_slide(loc, axis=i, show=SHOW, savepath=save_path)
    ]] *)
Definition export_slide (geometry : Geometry) (cube_dir : string)
    (i : nat) (idx : string) (loc : Z) : M Run unit :=
  let save_path := join "/" [cube_dir; idx ++ "-" ++ pretty loc ++ ".png"] in
  call (fun _ => EvShowSlide loc i (SHOW cfg) save_path)
       (show_slide geometry loc i (SHOW cfg) save_path).

(** [[
    for i, idx in enumerate(geometry.index_headers):
        length = geometry.lens[i]
        step = length // N
        locs = list(range(step // 3, length, step))
        for loc in locs: ...
    ]] *)
Definition export_axis (geometry : Geometry) (cube_dir : string)
    (axis : nat * string) : M Run unit :=
  let '(i, idx) := axis in
  length <- lift (getitem (lens geometry) i) ;;
  locs <- lift (locs length (N cfg)) ;;
  for_each locs (export_slide geometry cube_dir i idx).

(** The body of [for path_cube in tqdm(paths, ncols=1100)]. *)
Definition export_cube (path_cube : string) : M Run unit :=
  geometry <- call (fun _ => EvGeometry path_cube) (new_geometry path_cube) ;;
  let cube_dir := join "/" [script_dir cfg; short_name geometry] in
  mkdir_exist_ok cube_dir ;;;
  show_geometry (SHOW cfg) geometry ;;;
  for_each (enumerate (index_headers geometry)) (export_axis geometry cube_dir).

Definition cell_main : M Run unit := for_each (paths cfg) export_cube.

(** The code cells in order. *)
Definition notebook : M Run unit :=
  cell_paths ;;; cell_script_dir ;;; cell_main.

End Cells.

End SliceExporter.

(** ** Metric reporter (the "Metrics for cubes" notebook) *)

Module MetricReporter.

Record Config : Type := {
  paths : list string;
  metrics : list string;
  script_dir : string;
  local_kwargs : Kwargs;
  support_kwargs : Kwargs;
  plot_kwargs : Kwargs;
  ADD_PREFIX : bool;
  SAVE_POINT_CLOUDS : bool;
  SHOW : bool
}.

(** The values written in the notebook; [paths] is what the glob found. *)
Definition notebook_config (paths : list string) : Config :=
  {| paths := paths;
     metrics := ["support_hellinger"; "support_corrs"];
     script_dir := "cube_metrics";
     local_kwargs :=
       [("agg", PyNone); ("kernel_size", PyInt 3); ("reduce_func", PyStr "mean")];
     support_kwargs := [("agg", PyStr "mean"); ("supports", PyInt 20)];
     plot_kwargs := [("cmap", PyStr "Reds"); ("figsize", PyIntTuple [15; 15])];
     ADD_PREFIX := true;
     SAVE_POINT_CLOUDS := false;
     SHOW := true |}.

(** [[
    '|'.join([':'.join([key,str(value)]) for key, value in kwargs.items()])
    ]] *)
Definition param_suffix (kwargs : Kwargs) : string :=
  join "|" ((fun item : string * PyVal => join ":" [item.1; py_str item.2])
              <$> kwargs).

(** [[
    kwargs = copy(local_kwargs) if metric_name.startswith('local')
             else copy(support_kwargs)
    ]]
    The copy is never modified, so it is the dictionary's items. *)
Definition select_kwargs (cfg : Config) (metric_name : string) : Kwargs :=
  if startswith metric_name "local" then local_kwargs cfg else support_kwargs cfg.

Section Cells.
Context `{Seismiqb}.
Variable cfg : Config.

Definition cell_paths : M Run unit :=
  for_each (paths cfg) (fun path => call (fun _ => EvPrint path) (py_print path)).

Definition cell_script_dir : M Run unit :=
  mkdir_exist_ok (script_dir cfg).

(** The variables that the metric loop rebinds and that the code after the
    loop reads: the list [computed_metrics] and the name [kwargs], which is
    unbound until the loop body has run once in the kernel. *)
Record LoopVars : Type := {
  computed_metrics : list MetricResult;
  kwargs_var : option Kwargs
}.

(** [[
    if ADD_PREFIX:
        save_path += '@'
        save_path += '|'.join(...  kwargs.items() ...)
    ]]
    Reading an unbound [kwargs] raises [NameError]. *)
Definition add_prefix (save_path : string) (kwargs : option Kwargs)
  : exn + string :=
  if ADD_PREFIX cfg
  then match kwargs with
       | Some kw => inr ((save_path ++ "@") ++ param_suffix kw)
       | None => inl NameError
       end
  else inr save_path.

(** The body of [for metric_name in tqdm(metrics, ncols=600)]. *)
Definition evaluate_metric (geometry : Geometry) (gm : GeometryMetrics)
    (cube_dir : string) (vars : LoopVars) (metric_name : string)
  : M Run LoopVars :=
  let save_path := join "/" [cube_dir; metric_name] in
  let kwargs := select_kwargs cfg metric_name in
  save_path <- lift (add_prefix save_path (Some kwargs)) ;;
  metric <- call (EvEvaluate metric_name kwargs (SHOW cfg) (plot_kwargs cfg)
                    (save_path ++ ".png"))
                 (evaluate gm metric_name kwargs (SHOW cfg) (plot_kwargs cfg)
                    (save_path ++ ".png")) ;;
  let computed := (computed_metrics vars ++ [metric])%list in
  (if SAVE_POINT_CLOUDS cfg
   then call (fun _ => EvSavePointCloud metric save_path)
             (save_point_cloud metric save_path geometry)
   else ret tt) ;;;
  ret {| computed_metrics := computed; kwargs_var := Some kwargs |}.

(** The body of [for path_cube in tqdm(paths, ncols=1100)]; [kwargs_before]
    is the binding of the name [kwargs] left by the previous cubes. *)
Definition report_cube (kwargs_before : option Kwargs) (path_cube : string)
  : M Run (option Kwargs) :=
  geometry <- call (fun _ => EvGeometry path_cube) (new_geometry path_cube) ;;
  gm <- call (fun _ => EvMetrics) (new_metrics geometry) ;;
  let cube_dir := join "/" [script_dir cfg; short_name geometry] in
  mkdir_exist_ok cube_dir ;;;
  show_geometry (SHOW cfg) geometry ;;;
  vars <- for_fold (metrics cfg) (evaluate_metric geometry gm cube_dir)
            {| computed_metrics := []; kwargs_var := kwargs_before |} ;;
  let save_path := join "/" [cube_dir; "quality_map"] in
  save_path <- lift (add_prefix save_path (kwargs_var vars)) ;;
  quality_map <-
    call (fun _ => EvQualityMap [0.1%Q] PyNone (computed_metrics vars)
                     (SHOW cfg) (plot_kwargs cfg) (save_path ++ ".png"))
         (evaluate_quality_map gm [0.1%Q] PyNone (computed_metrics vars)
            (SHOW cfg) (plot_kwargs cfg) (save_path ++ ".png")) ;;
  call (fun _ => EvPltShow) plt_show ;;;
  ret (kwargs_var vars).

Definition cell_main : M Run (option Kwargs) :=
  for_fold (paths cfg) report_cube None.

Definition notebook : M Run (option Kwargs) :=
  cell_paths ;;; cell_script_dir ;;; cell_main.

End Cells.

End MetricReporter.

(** ** Iterative-results summarizer
    ([models/Carcass_interpolation/02_Iterative_results.ipynb]) *)

Module Summarizer.

(** *** Tables

    A column label is a string or an integer (the labels [0, 1, ...] that
    [apply(pd.Series)] creates).  A cell is a string, an integer, a float, a
    missing value or a Python list of floats; the notebook only moves floats
    around, so they are kept as the rationals they denote. *)

Inductive Label : Type :=
| LStr (s : string)
| LInt (n : Z).

#[global] Instance Label_eq_dec : EqDecision Label.
Proof. solve_decision. Defined.

Inductive Cell : Type :=
| CStr (s : string)
| CInt (n : Z)
| CFloat (q : Q)
| CNaN
| CList (xs : list Q).

(** A frame: the names of its index levels, one tuple of index values per
    row, and its columns in order, each with one cell per row. *)
Record Frame : Type := mkFrame {
  index_names : list (option string);
  index : list (list Cell);
  columns : list (Label * list Cell)
}.

(** Every column has one cell per row, as in any pandas frame. *)
Definition well_formed (f : Frame) : Prop :=
  Forall (fun c : Label * list Cell => length c.2 = length (index f)) (columns f).

(** [len(df)] *)
Definition frame_len (f : Frame) : Z := Z.of_nat (length (index f)).

(** [df[label]]: the cells of one column; [KeyError] when absent. *)
Definition column (f : Frame) (label : Label) : exn + list Cell :=
  match list_find (fun c : Label * list Cell => c.1 = label) (columns f) with
  | Some (_, (_, cells)) => inr cells
  | None => inl KeyError
  end.

Fixpoint select_columns (f : Frame) (labels : list Label)
  : exn + list (Label * list Cell) :=
  match labels with
  | [] => inr []
  | l :: rest =>
      match column f l with
      | inl e => inl e
      | inr cells =>
          match select_columns f rest with
          | inl e => inl e
          | inr cols => inr ((l, cells) :: cols)
          end
      end
  end.

(** [df[labels]] with a list of labels: a new frame with those columns. *)
Definition project (f : Frame) (labels : list Label) : exn + Frame :=
  match select_columns f labels with
  | inl e => inl e
  | inr cols =>
      inr {| index_names := index_names f; index := index f; columns := cols |}
  end.

(** [series.apply(func)]: [func] on every cell, stopping at the first
    exception. *)
Fixpoint apply_cells (func : Cell -> exn + Cell) (cells : list Cell)
  : exn + list Cell :=
  match cells with
  | [] => inr []
  | c :: rest =>
      match func c with
      | inl e => inl e
      | inr c' =>
          match apply_cells func rest with
          | inl e => inl e
          | inr cs => inr (c' :: cs)
          end
      end
  end.

(** [df[label] = cells]: replaces the column when the label exists, appends
    it otherwise. *)
Definition set_column (f : Frame) (label : Label) (cells : list Cell) : Frame :=
  {| index_names := index_names f;
     index := index f;
     columns :=
       if decide (label ∈ (columns f).*1)
       then (fun c : Label * list Cell =>
               if decide (c.1 = label) then (label, cells) else c) <$> columns f
       else (columns f ++ [(label, cells)])%list |}.

(** The labels [reset_index] gives to the columns made from the index:
    the level names, ['index'] for a single unnamed level and ['level_i']
    for the unnamed levels of a multi-level index. *)
Definition index_labels (names : list (option string)) : list Label :=
  match names with
  | [None] => [LStr "index"]
  | _ => (fun p : nat * option string =>
            match p.2 with
            | Some name => LStr name
            | None => LStr ("level_" ++ pretty (Z.of_nat p.1))
            end) <$> enumerate names
  end.

(** Cells of the [i]-th index level, one per row. *)
Definition index_level (f : Frame) (i : nat) : list Cell :=
  (fun key : list Cell => default CNaN (key !! i)) <$> index f.

(** [df.reset_index()]: a new frame whose index levels have become its first
    columns and whose index is [0, 1, ...]; [ValueError] when a level's label
    is already a column. *)
Definition reset_index (f : Frame) : exn + Frame :=
  let labels := index_labels (index_names f) in
  if decide (Exists (fun l => l ∈ (columns f).*1) labels)
  then inl ValueError
  else inr {| index_names := [None];
              index := (fun k : nat => [CInt (Z.of_nat k)])
                         <$> seq 0 (length (index f));
              columns :=
                ((fun p : nat * Label => (p.2, index_level f p.1))
                   <$> enumerate labels) ++ columns f |}.

(** Transpose: the rows of a list of equally long columns. *)
Fixpoint rows_of (n : nat) (cols : list (list Cell)) : list (list Cell) :=
  match n with
  | O => []
  | S n' =>
      ((fun col : list Cell => default CNaN (head col)) <$> cols)
        :: rows_of n' (tail <$> cols)
  end.

(** [df.set_index(labels)]: a new frame indexed by those columns, which are
    removed from the columns. *)
Definition set_index (f : Frame) (labels : list string) : exn + Frame :=
  match select_columns f (LStr <$> labels) with
  | inl e => inl e
  | inr keys =>
      inr {| index_names := Some <$> labels;
             index := rows_of (length (index f)) (keys.*2);
             columns :=
               filter (fun c : Label * list Cell => c.1 ∉ LStr <$> labels)
                      (columns f) |}
  end.

(** The values [pd.Series(cell)] holds: the items of a list, or the cell
    itself for a scalar. *)
Definition series_of (c : Cell) : list Cell :=
  match c with
  | CList xs => CFloat <$> xs
  | other => [other]
  end.

(** [series.apply(pd.Series)] on a column that has rows: a new frame with
    the same index and one column per position [0, 1, ...], shorter rows
    being padded with NaN. *)
Definition expand (f : Frame) (cells : list Cell) : Frame :=
  let rows := series_of <$> cells in
  let width := foldr Nat.max 0%nat (length <$> rows) in
  {| index_names := index_names f;
     index := index f;
     columns :=
       (fun j : nat =>
          (LInt (Z.of_nat j),
           (fun row : list Cell => default CNaN (row !! j)) <$> rows))
         <$> seq 0 width |}.

(** [{i : f'{stem}_{i}' for i in range(3)}] *)
Definition iteration_names (stem : string) : list (Label * Label) :=
  (fun i : nat => (LInt (Z.of_nat i), LStr (stem ++ "_" ++ pretty (Z.of_nat i))))
    <$> seq 0 3.

(** [df.rename(mapping, axis=1)]: a new frame, the labels found in the
    mapping being replaced. *)
Definition rename (f : Frame) (mapping : list (Label * Label)) : Frame :=
  {| index_names := index_names f;
     index := index f;
     columns :=
       (fun c : Label * list Cell =>
          match list_find (fun m : Label * Label => m.1 = c.1) mapping with
          | Some (_, (_, new)) => (new, c.2)
          | None => c
          end) <$> columns f |}.

(** [pd.concat(frames, axis=1)] for frames that carry the same index, as the
    three reshaped frames do: their columns side by side. *)
Definition concat_columns (frames : list Frame) : Frame :=
  {| index_names := default [] (index_names <$> head frames);
     index := default [] (index <$> head frames);
     columns := concat (columns <$> frames) |}.

(** Order on index values: strings and integers by their own order, cells
    of different kinds left as they are. *)
Definition cell_compare (a b : Cell) : comparison :=
  match a, b with
  | CStr s, CStr t => String.compare s t
  | CInt m, CInt n => Z.compare m n
  | _, _ => Eq
  end.

Fixpoint key_compare (a b : list Cell) : comparison :=
  match a, b with
  | x :: a', y :: b' =>
      match cell_compare x y with
      | Eq => key_compare a' b'
      | other => other
      end
  | [], _ :: _ => Lt
  | _ :: _, [] => Gt
  | [], [] => Eq
  end.

(** Insertion of a row (its index value with its cells) into a sorted list of
    rows that came after it in the frame: before the first row whose index
    value is not smaller, so ahead of the rows with an equal index value. *)
Fixpoint insert_row (row : list Cell * list Cell)
    (sorted : list (list Cell * list Cell)) : list (list Cell * list Cell) :=
  match sorted with
  | [] => [row]
  | r :: rest =>
      match key_compare row.1 r.1 with
      | Gt => r :: insert_row row rest
      | _ => row :: r :: rest
      end
  end.

(** [df.sort_index()]: a new frame with the rows in index order, rows with
    an equal index value keeping the order they had. *)
Definition sort_index (f : Frame) : Frame :=
  let body := rows_of (length (index f)) ((columns f).*2) in
  let sorted := foldr insert_row [] (zip (index f) body) in
  {| index_names := index_names f;
     index := sorted.*1;
     columns :=
       (fun p : nat * Label =>
          (p.2, (fun row : list Cell * list Cell =>
                   default CNaN (row.2 !! p.1)) <$> sorted))
         <$> enumerate ((columns f).*1) |}.

(** [df.head(n)]: a new frame with the first [n] rows. *)
Definition head_rows (n : nat) (f : Frame) : Frame :=
  {| index_names := index_names f;
     index := take n (index f);
     columns := (fun c : Label * list Cell => (c.1, take n c.2)) <$> columns f |}.

(** *** The store

    Frames are objects: a Python name holds a reference, and
    [df[label] = ...] changes the object in place for everybody who holds it.
    [disk] is the persisted research results, by name; [heap] the frames of
    the running kernel; [shown] what the cells displayed. *)

Inductive Shown : Type :=
| ShownInt (n : Z)
| ShownFrame (f : Frame).

Record Store : Type := mkStore {
  disk : gmap string Frame;
  heap : gmap nat Frame;
  shown : list Shown
}.

(** A new object holding [f]. *)
Definition alloc (f : Frame) : M Store nat :=
  fun st =>
    let ref := fresh (dom (heap st)) in
    (inr ref, {| disk := disk st; heap := <[ref := f]> (heap st);
                 shown := shown st |}).

(** The frame a reference points to. *)
Definition deref (ref : nat) : M Store Frame :=
  fun st => match heap st !! ref with
            | Some f => (inr f, st)
            | None => (inl (OtherError "dangling reference"), st)
            end.

(** In-place update of the object behind a reference. *)
Definition update (ref : nat) (change : Frame -> Frame) : M Store unit :=
  fun st =>
    (inr tt, {| disk := disk st; heap := alter change ref (heap st);
                shown := shown st |}).

Definition display (s : Shown) : M Store unit :=
  fun st =>
    (inr tt, {| disk := disk st; heap := heap st;
                shown := (shown st ++ [s])%list |}).

(** [Results(res_name).df]: the persisted table, loaded into a new frame. *)
Definition load_results (res_name : string) : M Store nat :=
  fun st => match disk st !! res_name with
            | Some f => alloc f st
            | None => (inl (OtherError "FileNotFoundError"), st)
            end.

(** *** Operations on references *)

(** [ref[labels]] *)
Definition getitem_columns (ref : nat) (labels : list Label) : M Store nat :=
  f <- deref ref ;; g <- lift (project f labels) ;; alloc g.

(** [ref[label]]: the cells of the column. *)
Definition getitem_column (ref : nat) (label : Label) : M Store (list Cell) :=
  f <- deref ref ;; lift (column f label).

(** [ref[label] = cells], in place. *)
Definition setitem_column (ref : nat) (label : Label) (cells : list Cell)
  : M Store unit :=
  deref ref ;;; update ref (fun f => set_column f label cells).

Definition reset_index_of (ref : nat) : M Store nat :=
  f <- deref ref ;; g <- lift (reset_index f) ;; alloc g.

Definition set_index_of (ref : nat) (labels : list string) : M Store nat :=
  f <- deref ref ;; g <- lift (set_index f labels) ;; alloc g.

(** [ref[label].apply(pd.Series).rename({i : f'{stem}_{i}' for i in range(3)},
    axis=1)].  On a column without rows [apply(pd.Series)] gives a Series, not
    a frame, and [rename(..., axis=1)] raises [ValueError]. *)
Definition per_iteration (ref : nat) (label stem : string) : M Store nat :=
  f <- deref ref ;;
  cells <- lift (column f (LStr label)) ;;
  match cells with
  | [] => raise ValueError
  | _ =>
      wide <- alloc (expand f cells) ;;
      w <- deref wide ;;
      alloc (rename w (iteration_names stem))
  end.

(** *** The cells *)

(** [lambda item: item.split('+')[i]]; a cell that is not a string has no
    [split]. *)
Definition split_item (i : nat) (item : Cell) : exn + Cell :=
  match item with
  | CStr s =>
      match getitem (split "+" s) i with
      | inl e => inl e
      | inr piece => inr (CStr piece)
      end
  | _ => inl (OtherError "AttributeError")
  end.

Definition res_name : string := "Research_iterative".

Definition metric_columns : list string :=
  ["coverages"; "window_rates"; "corrs"; "local_corrs"].

(** [[
    results = Results(res_name)
    len(results.df)
    ]]
    gives the reference held by [results.df]. *)
Definition cell_load : M Store nat :=
  results_df <- load_results res_name ;;
  f <- deref results_df ;;
  display (ShownInt (frame_len f)) ;;;
  ret results_df.

(** [[
    df = results.df[columns + ['cube_and_horizon', 'repetition']]
    df['cube_name'] = df['cube_and_horizon'].apply(lambda item: item.split('+')[0])
    df['horizon_name'] = df['cube_and_horizon'].apply(lambda item: item.split('+')[1])
    dff = (df.reset_index().set_index(['cube_name', 'horizon_name'])[columns])
    ]]
    gives the references held by [df] and [dff]. *)
Definition cell_transform (results_df : nat) : M Store (nat * nat) :=
  df <- getitem_columns results_df
          (LStr <$> (metric_columns ++ ["cube_and_horizon"; "repetition"])%list) ;;
  keys <- getitem_column df (LStr "cube_and_horizon") ;;
  cube_names <- lift (apply_cells (split_item 0) keys) ;;
  setitem_column df (LStr "cube_name") cube_names ;;;
  keys <- getitem_column df (LStr "cube_and_horizon") ;;
  horizon_names <- lift (apply_cells (split_item 1) keys) ;;
  setitem_column df (LStr "horizon_name") horizon_names ;;;
  flat <- reset_index_of df ;;
  indexed <- set_index_of flat ["cube_name"; "horizon_name"] ;;
  dff <- getitem_columns indexed (LStr <$> metric_columns) ;;
  ret (df, dff).

(** [[
    print(len(dff))
    dff.head(10)
    ]] *)
Definition cell_head (dff : nat) : M Store unit :=
  f <- deref dff ;;
  display (ShownInt (frame_len f)) ;;;
  top <- alloc (head_rows 10 f) ;;
  t <- deref top ;;
  display (ShownFrame t).

(** [[
    wr = dff['window_rates'].apply(pd.Series).rename(...)
    cov = dff['coverages'].apply(pd.Series).rename(...)
    corrs = dff['corrs'].apply(pd.Series).rename(...)
    pd.concat((wr, cov, corrs), axis=1).sort_index()
    ]] *)
Definition cell_reshape (dff : nat) : M Store (nat * nat * nat) :=
  wr <- per_iteration dff "window_rates" "window_rate" ;;
  cov <- per_iteration dff "coverages" "coverage" ;;
  corrs <- per_iteration dff "corrs" "corr" ;;
  a <- deref wr ;; b <- deref cov ;; c <- deref corrs ;;
  joined <- alloc (concat_columns [a; b; c]) ;;
  j <- deref joined ;;
  sorted <- alloc (sort_index j) ;;
  s <- deref sorted ;;
  display (ShownFrame s) ;;;
  ret (wr, cov, corrs).

(** The names bound when the notebook has run. *)
Record Names : Type := {
  results_df : nat;
  df : nat;
  dff : nat;
  wr : nat;
  cov : nat;
  corrs : nat
}.

Definition notebook : M Store Names :=
  results_df <- cell_load ;;
  frames <- cell_transform results_df ;;
  cell_head frames.2 ;;;
  wide <- cell_reshape frames.2 ;;
  ret {| results_df := results_df; df := frames.1; dff := frames.2;
         wr := wide.1.1; cov := wide.1.2; corrs := wide.2 |}.

(** *** Composite keys *)

(** The composite key of a (source, horizon) pair. *)
Definition composite (p : string * string) : string := p.1 +:+ "+" +:+ p.2.

(** *** What a computation leaves alone *)

(** The references in [D] and the persisted tables are the same in [st'] as
    in [st], and no object of [st] has disappeared. *)
Definition untouched (D : gset nat) (st st' : Store) : Prop :=
  disk st' = disk st
  /\ dom (heap st) ⊆ dom (heap st')
  /\ forall ref, ref ∈ D -> heap st' !! ref = heap st !! ref.

(** [m] leaves the objects in [D] and the persisted tables alone, whatever
    its outcome, and a value it returns satisfies [Q]. *)
Definition keeps (D : gset nat) {A} (m : M Store A) (Q : A -> Prop) : Prop :=
  forall st r st',
    D ⊆ dom (heap st) -> m st = (r, st') ->
    untouched D st st' /\ forall a, r = inr a -> Q a.

End Summarizer.

(** ** Reading the record of calls *)

(** The [gm.evaluate(metric_name, ...)] calls of a run, each with its
    outcome, in call order. *)
Definition evaluations `{Seismiqb} (evs : list Event)
  : list (string * (exn + MetricResult)) :=
  omap (fun ev => match ev with
                  | EvEvaluate name _ _ _ _ outcome => Some (name, outcome)
                  | _ => None
                  end) evs.

Definition is_quality_map `{Seismiqb} (ev : Event) : bool :=
  match ev with
  | EvQualityMap _ _ _ _ _ _ => true
  | _ => false
  end.

(** Events that are neither a metric evaluation nor the quality map. *)
Definition quiet `{Seismiqb} (evs : list Event) : Prop :=
  Forall (fun ev => is_quality_map ev = false) evs /\ evaluations evs = [].

(** The [geometry.show_slide] calls of a run: axis and location. *)
Definition slides `{Seismiqb} (evs : list Event) : list (nat * Z) :=
  omap (fun ev => match ev with
                  | EvShowSlide loc axis _ _ => Some (axis, loc)
                  | _ => None
                  end) evs.

(** ** A small world to run the notebooks in

    Directories are the only state; every cube has two indexed axes of
    extents 100 and 50 (and 30 samples in depth); a metric evaluates to its
    own name. *)

Module Toy.

Definition mkdir (path : string) (dirs : list string)
  : (exn + unit) * list string :=
  if decide (path ∈ dirs) then (inl FileExistsError, dirs)
  else (inr tt, path :: dirs).

#[local] Instance toy : Seismiqb := {|
  World := list string;
  Geometry := string;
  GeometryMetrics := string;
  MetricResult := string;
  short_name := fun g => g;
  index_headers := fun _ => ["INLINE_3D"; "CROSSLINE_3D"];
  lens := fun _ => [100; 50; 30];
  geometry_str := fun g => g;
  new_geometry := fun path w => (inr path, w);
  new_metrics := fun g w => (inr g, w);
  show_slide := fun _ _ _ _ _ w => (inr tt, w);
  evaluate := fun _ name _ _ _ _ w => (inr name, w);
  evaluate_quality_map := fun _ _ _ _ _ _ _ w => (inr "quality_map", w);
  save_point_cloud := fun _ _ _ w => (inr tt, w);
  os_mkdir := mkdir;
  py_print := fun _ w => (inr tt, w);
  plt_show := fun w => (inr tt, w)
|}.

Definition start : Run := {| world := []; log := [] |}.

(** A run that starts with some directories already there. *)
Definition start_with (dirs : list string) : Run :=
  {| world := dirs; log := [] |}.

(** A results table with two rows. *)
Definition table : Summarizer.Frame :=
  let seqs := [Summarizer.CList [0.5%Q; 0.6%Q]; Summarizer.CList [0.7%Q]] in
  {| Summarizer.index_names := [None];
     Summarizer.index := [[Summarizer.CInt 0]; [Summarizer.CInt 1]];
     Summarizer.columns :=
       [(Summarizer.LStr "coverages", seqs);
        (Summarizer.LStr "window_rates", seqs);
        (Summarizer.LStr "corrs", seqs);
        (Summarizer.LStr "local_corrs", seqs);
        (Summarizer.LStr "cube_and_horizon",
         [Summarizer.CStr "M_cube+t0_J1_anon"; Summarizer.CStr "M_cube+t0_B_anon"]);
        (Summarizer.LStr "repetition", [Summarizer.CInt 0; Summarizer.CInt 0])] |}.

Definition store : Summarizer.Store :=
  {| Summarizer.disk := {[ Summarizer.res_name := table ]};
     Summarizer.heap := ∅;
     Summarizer.shown := [] |}.

End Toy.

(** ** What the cube notebooks are expected to record *)

(** The file a slide is saved to:
    ['/'.join((cube_dir, f'{idx}-{loc}.png'))]. *)
Definition slide_save_path (cube_dir idx : string) (loc : Z) : string :=
  join "/" [cube_dir; idx ++ "-" ++ pretty loc ++ ".png"].

(** The [show_slide] calls of one axis, one per location. *)
Definition axis_slides `{Seismiqb} (show : bool) (cube_dir : string)
    (i : nat) (idx : string) (locations : list Z) : list Event :=
  (fun loc => EvShowSlide loc i show (slide_save_path cube_dir idx loc))
    <$> locations.

(** A [show_slide] call that saves into [cube_dir]. *)
Definition slide_into `{Seismiqb} (show : bool) (cube_dir : string)
    (ev : Event) : Prop :=
  exists loc i idx, ev = EvShowSlide loc i show (slide_save_path cube_dir idx loc).

(** The path a metric's image and point cloud are saved under, before the
    extension: [cube_dir/metric_name], with ["@"] and the encoded preset when
    [ADD_PREFIX] is on. *)
Definition metric_save_path (cfg : MetricReporter.Config)
    (cube_dir metric_name : string) : string :=
  if MetricReporter.ADD_PREFIX cfg
  then (join "/" [cube_dir; metric_name] ++ "@")
         ++ MetricReporter.param_suffix
              (MetricReporter.select_kwargs cfg metric_name)
  else join "/" [cube_dir; metric_name].

(** An entry whose key holds no ":" and whose encoding holds no "|". *)
Definition plain_entry (item : string * PyVal) : Prop :=
  count ":" item.1 = 0%nat
  /\ count "|" (item.1 +:+ ":" +:+ py_str item.2) = 0%nat.

(** The cubes a run has opened, in order. *)
Definition opened `{Seismiqb} (evs : list Event) : list string :=
  omap (fun ev => match ev with
                  | EvGeometry path => Some path
                  | _ => None
                  end) evs.

(** A less obliging world: the name [plt] is not bound, as in the metric
    notebook run on its own, so [plt.show()] raises [NameError]; and the
    evaluator does not know the metric ["broken"]. *)
Module ToyFaulty.

#[local] Instance toy : Seismiqb := {|
  World := list string;
  Geometry := string;
  GeometryMetrics := string;
  MetricResult := string;
  short_name := fun g => g;
  index_headers := fun _ => ["INLINE_3D"; "CROSSLINE_3D"];
  lens := fun _ => [100; 50; 30];
  geometry_str := fun g => g;
  new_geometry := fun path w => (inr path, w);
  new_metrics := fun g w => (inr g, w);
  show_slide := fun _ _ _ _ _ w => (inr tt, w);
  evaluate := fun _ name _ _ _ _ w =>
    if String.eqb name "broken" then (inl (OtherError "unknown metric"), w)
    else (inr name, w);
  evaluate_quality_map := fun _ _ _ _ _ _ _ w => (inr "quality_map", w);
  save_point_cloud := fun _ _ _ w => (inr tt, w);
  os_mkdir := Toy.mkdir;
  py_print := fun _ w => (inr tt, w);
  plt_show := fun w => (inl NameError, w)
|}.

Definition start : Run := {| world := []; log := [] |}.

End ToyFaulty.

(** A world whose file system tells directories from regular files:
    [os.mkdir] raises [FileExistsError] when anything exists at the path, as
    the operating system's [mkdir] does, and creates the directory
    otherwise. *)
Module ToyFiles.

Record Files : Type := { dirs : list string; files : list string }.

Definition mkdir (path : string) (fs : Files) : (exn + unit) * Files :=
  if decide (path ∈ (dirs fs ++ files fs)%list) then (inl FileExistsError, fs)
  else (inr tt, {| dirs := path :: dirs fs; files := files fs |}).

#[local] Instance toy : Seismiqb := {|
  World := Files;
  Geometry := string;
  GeometryMetrics := string;
  MetricResult := string;
  short_name := fun g => g;
  index_headers := fun _ => ["INLINE_3D"; "CROSSLINE_3D"];
  lens := fun _ => [100; 50; 30];
  geometry_str := fun g => g;
  new_geometry := fun path w => (inr path, w);
  new_metrics := fun g w => (inr g, w);
  show_slide := fun _ _ _ _ _ w => (inr tt, w);
  evaluate := fun _ name _ _ _ _ w => (inr name, w);
  evaluate_quality_map := fun _ _ _ _ _ _ _ w => (inr "quality_map", w);
  save_point_cloud := fun _ _ _ w => (inr tt, w);
  os_mkdir := mkdir;
  py_print := fun _ w => (inr tt, w);
  plt_show := fun w => (inr tt, w)
|}.

(** A run that starts with some directories and regular files in place. *)
Definition start_with (dirs files : list string) : Run :=
  {| world := {| dirs := dirs; files := files |}; log := [] |}.

End ToyFiles.

(** * Properties *)

(** ** Facts about [range] *)

Section RangeFacts.

Lemma range_len_nonneg start stop step : 0 <= range_len start stop step.
Proof.
  unfold range_len.
  destruct (0 <? step) eqn:Hs.
  - apply Z.ltb_lt in Hs.
    destruct (start <? stop) eqn:Hlt; [|lia].
    apply Z.ltb_lt in Hlt.
    assert (0 <= (stop - start - 1) / step) by (apply Z.div_pos; lia).
    lia.
  - apply Z.ltb_ge in Hs.
    destruct (stop <? start) eqn:Hlt; [|lia].
    apply Z.ltb_lt in Hlt.
    destruct (Z.eq_dec step 0) as [->|Hne].
    + simpl. rewrite Z.div_0_r. lia.
    + assert (0 <= (start - stop - 1) / (- step)) by (apply Z.div_pos; lia).
      lia.
Qed.



Lemma range_ok start stop step l :
  range start stop step = inr l ->
  step <> 0 /\
  l = (fun k : nat => start + Z.of_nat k * step)
        <$> seq 0 (Z.to_nat (range_len start stop step)).
Proof.
  unfold range. destruct (step =? 0) eqn:Hz; [discriminate|].
  apply Z.eqb_neq in Hz. intros [= <-]. split; [assumption|reflexivity].
Qed.

End RangeFacts.

(** ** Sample locations: shape, bound, count *)

Section LocsFacts.

Lemma locs_ok (E N : Z) (l : list Z) :
  locs E N = inr l ->
  N <> 0 /\ E / N <> 0 /\
  l = (fun k : nat => (E / N) / 3 + Z.of_nat k * (E / N))
        <$> seq 0 (Z.to_nat (range_len ((E / N) / 3) E (E / N))).
Proof.
  unfold locs, floordiv. destruct (N =? 0) eqn:HN; [discriminate|].
  apply Z.eqb_neq in HN. intros Hr. apply range_ok in Hr as [Hs ->].
  repeat split; assumption.
Qed.

(** The stride of a non-negative extent is zero exactly when the extent is
    smaller than a positive slide count. *)
Lemma stride_zero_iff (E N : Z) :
  0 <= E -> 0 < N -> (E / N = 0 <-> E < N).
Proof.
  intros HE HN. split.
  - intros Hz. pose proof (Z.mul_succ_div_gt E N HN) as Hgt. rewrite Hz in Hgt. lia.
  - intros Hlt. apply Z.div_small. lia.
Qed.

(** Number of generated locations when the stride is positive. *)
Lemma locs_length (E N : Z) (l : list Z) :
  locs E N = inr l ->
  Z.of_nat (length l) = range_len ((E / N) / 3) E (E / N).
Proof.
  intros H. apply locs_ok in H as (_ & _ & ->).
  rewrite length_fmap, length_seq, Z2Nat.id; [reflexivity|apply range_len_nonneg].
Qed.

(** For [0 < N <= E] the sequence never has fewer than [N] elements, and it
    has exactly [N] of them only when the remainder [E mod N] does not exceed
    the offset [(E // N) // 3]. *)
Lemma locs_count (E N : Z) :
  0 < N <= E ->
  let s := E / N in
  N <= range_len (s / 3) E s /\
  (range_len (s / 3) E s = N <-> E mod N <= s / 3).
Proof.
  intros [HN HE] s.
  assert (Hs : 0 < s).
  { subst s. apply Z.div_str_pos. lia. }
  assert (Hdecomp : E = N * s + E mod N) by (subst s; apply Z.div_mod; lia).
  assert (Hr : 0 <= E mod N < N) by (apply Z.mod_pos_bound; lia).
  assert (Ho : 0 <= s / 3 < s).
  { split; [apply Z.div_pos; lia|apply Z.div_lt_upper_bound; lia]. }
  unfold range_len.
  apply Z.ltb_lt in Hs as Hs'. rewrite Hs'.
  assert (Hlt : s / 3 < E) by nia.
  apply Z.ltb_lt in Hlt as Hlt'. rewrite Hlt'.
  set (d := E mod N - s / 3 - 1) in *.
  assert (Hq : (E - s / 3 - 1) / s = N + d / s).
  { replace (E - s / 3 - 1) with (d + N * s) by (subst d; lia).
    rewrite Z.div_add by lia. lia. }
  rewrite Hq.
  assert (Hd : -1 <= d / s).
  { apply Z.div_le_lower_bound; [lia|]. subst d. lia. }
  split; [lia|]. split.
  - intros Heq. assert (Hm1 : d / s = -1) by lia.
    destruct (Z_lt_le_dec d 0) as [Hneg|Hpos]; [subst d; lia|].
    assert (0 <= d / s) by (apply Z.div_pos; lia). lia.
  - intros Hle. assert (Hneg : d < 0) by (subst d; lia).
    assert (d / s < 0) by (apply Z.div_lt_upper_bound; lia). lia.
Qed.

End LocsFacts.

(** ** Slice exporter: the sample locations *)



(** C2.  The number of locations is not always [N]: an axis of extent 100
    cut with [N = 30] gives 33 locations, and an axis of extent 7 with the
    notebook's [N = 5] gives 7. *)
Theorem locs_count_differs_from_N :
  (exists l, locs 100 30 = inr l /\ length l = 33%nat)
  /\ locs 7 5 = inr [0; 1; 2; 3; 4; 5; 6].
Proof.
  split; [|reflexivity].
  eexists. split; reflexivity.
Qed.

(** ** Running computations *)

Section MonadFacts.
Context {St : Type}.

Lemma bind_cases {A B} (m : M St A) (k : A -> M St B) s r s' :
  bind m k s = (r, s') ->
  (exists e, m s = (inl e, s') /\ r = inl e)
  \/ (exists a s1, m s = (inr a, s1) /\ k a s1 = (r, s')).
Proof.
  unfold bind. destruct (m s) as [[e|a] s1]; intros Heq.
  - left. exists e. inversion Heq; subst. split; reflexivity.
  - right. exists a, s1. split; [reflexivity|assumption].
Qed.

Lemma bind_inr {A B} (m : M St A) (k : A -> M St B) s b s' :
  bind m k s = (inr b, s') ->
  exists a s1, m s = (inr a, s1) /\ k a s1 = (inr b, s').
Proof.
  intros Heq. apply bind_cases in Heq as [(e & _ & Hr)|Hok];
    [discriminate|assumption].
Qed.

Lemma lift_inr {A} (r : exn + A) (s s' : St) a :
  lift r s = (inr a, s') -> r = inr a /\ s' = s.
Proof. unfold lift. intros [= -> ->]. split; reflexivity. Qed.

(** A loop that completes has completed each of its iterations. *)
Lemma for_each_inr {A} (xs : list A) (body : A -> M St unit) s s' :
  for_each xs body s = (inr tt, s') ->
  Forall (fun x => exists s1 s2, body x s1 = (inr tt, s2)) xs.
Proof.
  revert s. induction xs as [|x xs IH]; intros s Hrun; [constructor|].
  simpl in Hrun. apply bind_inr in Hrun as ([] & s1 & Hx & Hrest).
  constructor; [exists s, s1; assumption|].
  eapply IH; eassumption.
Qed.

End MonadFacts.

Lemma enumerate_lookup {A} (xs : list A) (i : nat) (x : A) :
  xs !! i = Some x -> (i, x) ∈ enumerate xs.
Proof.
  intros Hx. apply list_elem_of_lookup. exists i.
  unfold enumerate. apply lookup_zip_Some. split; [|assumption].
  apply lookup_seq_lt. eapply lookup_lt_Some; eassumption.
Qed.

(** ** Slice exporter: extents below the slide count *)

(** C9.  On an axis whose extent [E] is below the slide count [N] the
    stride [E // N] is zero and building the location sequence raises (a
    zero-step range); hence when the exporter completes a cube, every indexed
    axis of that cube has an extent, and a non-negative extent is at least
    [N]. *)
Theorem extent_below_count_fails `{Seismiqb}
    (cfg : SliceExporter.Config) (path_cube : string) (s s' : Run) :
  (forall E N : Z, 0 <= E < N -> E / N = 0 /\ locs E N = inl ValueError)
  /\ (SliceExporter.export_cube cfg path_cube s = (inr tt, s') ->
      exists geometry w,
        new_geometry path_cube (world s) = (inr geometry, w)
        /\ forall i idx, index_headers geometry !! i = Some idx ->
             exists E, lens geometry !! i = Some E
                       /\ (0 <= E -> SliceExporter.N cfg <= E)).
Proof.
  split.
  - intros E N [HE HN].
    assert (Hz : E / N = 0) by (apply Z.div_small; lia).
    split; [assumption|].
    unfold locs, floordiv.
    replace (N =? 0) with false by (symmetry; apply Z.eqb_neq; lia).
    rewrite Hz. reflexivity.
  - intros Hrun. unfold SliceExporter.export_cube in Hrun.
    apply bind_inr in Hrun as (geometry & s1 & Hgeo & Hrun).
    apply bind_inr in Hrun as ([] & s2 & _ & Hrun).
    apply bind_inr in Hrun as ([] & s3 & _ & Hrun).
    unfold call in Hgeo.
    destruct (new_geometry path_cube (world s)) as [rg w] eqn:Hng.
    injection Hgeo as -> _.
    exists geometry, w. split; [reflexivity|].
    intros i idx Hidx.
    apply for_each_inr in Hrun.
    rewrite Forall_forall in Hrun.
    destruct (Hrun _ (enumerate_lookup _ _ _ Hidx)) as (t1 & t2 & Haxis).
    unfold SliceExporter.export_axis in Haxis.
    apply bind_inr in Haxis as (E & t3 & HE & Haxis).
    apply bind_inr in Haxis as (l & t4 & Hl & _).
    apply lift_inr in HE as [HE _]. apply lift_inr in Hl as [Hl _].
    unfold getitem in HE.
    destruct (lens geometry !! i) as [E'|] eqn:Hlens; [|discriminate].
    injection HE as ->.
    exists E. split; [reflexivity|]. intros Hnonneg.
    apply locs_ok in Hl as (HN & Hstride & _).
    destruct (Z_lt_le_dec (SliceExporter.N cfg) 0) as [Hneg|Hpos]; [lia|].
    destruct (Z_lt_le_dec E (SliceExporter.N cfg)) as [Hlt|Hge]; [|assumption].
    exfalso. apply Hstride. apply Z.div_small. lia.
Qed.

Lemma extent_below_count_fails_witness :
  (3 / 5 = 0 /\ locs 3 5 = inl ValueError)
  /\ exists geometry w,
       new_geometry "cube_1" (world Toy.start) = (inr geometry, w)
       /\ forall i idx, index_headers geometry !! i = Some idx ->
            exists E, lens geometry !! i = Some E /\ (0 <= E -> 5 <= E).
Proof.
  destruct (@extent_below_count_fails Toy.toy
              (SliceExporter.notebook_config ["cube_1"]) "cube_1" Toy.start
              (SliceExporter.export_cube
                 (SliceExporter.notebook_config ["cube_1"]) "cube_1"
                 Toy.start).2)
    as [Hfail Hdone].
  split.
  - apply Hfail. lia.
  - apply Hdone. vm_compute. reflexivity.
Defined.

(** The notebook's own settings on one cube of the small world: one slide
    per location, five along each of the two indexed axes. *)
Example export_cube_slides :
  slides (log (@SliceExporter.export_cube Toy.toy
                 (SliceExporter.notebook_config ["cube_1"]) "cube_1"
                 Toy.start).2)
  = [(0%nat, 6); (0%nat, 26); (0%nat, 46); (0%nat, 66); (0%nat, 86);
     (1%nat, 3); (1%nat, 13); (1%nat, 23); (1%nat, 33); (1%nat, 43)].
Proof. vm_compute. reflexivity. Qed.

(** ** Facts about [startswith], [split] and [join] *)

Section StringFacts.

Lemma app_String (c : ascii) (a b : string) :
  String c a ++ b = String c (a ++ b).
Proof. reflexivity. Qed.

Lemma app_Empty (b : string) : "" ++ b = b.
Proof. reflexivity. Qed.

Lemma startswith_iff (s p : string) :
  startswith s p = true <-> exists rest, s = p ++ rest.
Proof.
  unfold startswith. revert s. induction p as [|c p IH]; intros s.
  - simpl. split; [intros _; exists s; reflexivity|].
    intros _. destruct s; reflexivity.
  - destruct s as [|d s]; simpl.
    + split; [discriminate|]. intros [rest Hrest]. discriminate.
    + destruct (ascii_dec c d) as [->|Hne].
      * rewrite IH. split; intros [rest Hrest]; exists rest;
          rewrite app_String in *; congruence.
      * split; [discriminate|]. intros [rest Hrest].
        rewrite app_String in Hrest. congruence.
Qed.

Variable sep : ascii.

Lemma split_not_nil (s : string) : split sep s <> [].
Proof.
  destruct s as [|c s]; simpl; [discriminate|].
  destruct (Ascii.eqb c sep); [discriminate|].
  destruct (split sep s); discriminate.
Qed.

Lemma split_without_sep (s : string) :
  count sep s = 0%nat -> split sep s = [s].
Proof.
  induction s as [|c s IH]; simpl; [reflexivity|].
  destruct (Ascii.eqb c sep); [discriminate|].
  intros Hc. rewrite IH by assumption. reflexivity.
Qed.

Lemma split_app (a b : string) :
  count sep a = 0%nat ->
  split sep (a ++ String sep b) = a :: split sep b.
Proof.
  induction a as [|c a IH].
  - intros _. rewrite app_Empty. simpl. rewrite Ascii.eqb_refl. reflexivity.
  - rewrite app_String. simpl. destruct (Ascii.eqb c sep); [discriminate|].
    intros Hc. rewrite IH by assumption. reflexivity.
Qed.

Lemma count_app (a b : string) :
  count sep (a ++ b) = (count sep a + count sep b)%nat.
Proof.
  induction a as [|c a IH]; [reflexivity|].
  rewrite app_String. simpl. rewrite IH. lia.
Qed.

(** Splitting what [join] glued gives the parts back, in order. *)
Lemma split_join (parts : list string) :
  parts <> [] ->
  Forall (fun part => count sep part = 0%nat) parts ->
  split sep (join (String sep "") parts) = parts.
Proof.
  intros Hne Hparts. induction Hparts as [|part rest Hpart Hrest IH];
    [contradiction|].
  destruct rest as [|part' rest'].
  - simpl. apply split_without_sep. assumption.
  - change (join (String sep "") (part :: part' :: rest'))
      with (part ++ String sep (join (String sep "") (part' :: rest'))).
    rewrite split_app by assumption.
    rewrite IH by discriminate. reflexivity.
Qed.

(** A string with exactly one separator splits into the text before it and
    the text after it. *)
Lemma split_single (s : string) :
  count sep s = 1%nat ->
  exists a b, s = a ++ String sep b
              /\ count sep a = 0%nat /\ count sep b = 0%nat
              /\ split sep s = [a; b].
Proof.
  induction s as [|c s IH]; simpl; [discriminate|].
  destruct (Ascii.eqb c sep) eqn:Hc.
  - intros Hcount. apply Ascii.eqb_eq in Hc as ->.
    exists "", s. assert (Hs : count sep s = 0%nat) by lia.
    rewrite (split_without_sep s Hs).
    split; [reflexivity|]. split; [reflexivity|]. split; [assumption|reflexivity].
  - intros Hcount. destruct (IH Hcount) as (a & b & -> & Ha & Hb & Hsplit).
    exists (String c a), b. rewrite Hsplit. simpl. rewrite Hc.
    split; [reflexivity|]. split; [assumption|]. split; [assumption|reflexivity].
Qed.

End StringFacts.

(** ** Metric reporter: parameter presets and their encoding *)

(** C3.  The preset of a metric depends only on whether its name begins
    with "local": such names get the local preset, all others the support
    preset; "support_hellinger" gets the support preset and "local_corr" the
    local one. *)
Theorem select_kwargs_by_local_prefix
    (cfg : MetricReporter.Config) (metric_name : string) :
  ((exists rest, metric_name = "local" ++ rest) ->
   MetricReporter.select_kwargs cfg metric_name = MetricReporter.local_kwargs cfg)
  /\ (~ (exists rest, metric_name = "local" ++ rest) ->
      MetricReporter.select_kwargs cfg metric_name
      = MetricReporter.support_kwargs cfg)
  /\ MetricReporter.select_kwargs cfg "support_hellinger"
     = MetricReporter.support_kwargs cfg
  /\ MetricReporter.select_kwargs cfg "local_corr"
     = MetricReporter.local_kwargs cfg.
Proof.
  unfold MetricReporter.select_kwargs.
  split; [|split; [|split; reflexivity]].
  - intros Hlocal. apply startswith_iff in Hlocal. rewrite Hlocal. reflexivity.
  - intros Hother. destruct (startswith metric_name "local") eqn:Hs;
      [|reflexivity].
    exfalso. apply Hother, startswith_iff. assumption.
Qed.

Lemma select_kwargs_by_local_prefix_witness :
  MetricReporter.select_kwargs (MetricReporter.notebook_config [])
    "local_correlation"
  = [("agg", PyNone); ("kernel_size", PyInt 3); ("reduce_func", PyStr "mean")]
  /\ MetricReporter.select_kwargs (MetricReporter.notebook_config [])
       "support_corrs"
     = [("agg", PyStr "mean"); ("supports", PyInt 20)].
Proof.
  split.
  - destruct (select_kwargs_by_local_prefix
                (MetricReporter.notebook_config []) "local_correlation")
      as (Hlocal & _).
    apply Hlocal. exists "_correlation". reflexivity.
  - destruct (select_kwargs_by_local_prefix
                (MetricReporter.notebook_config []) "support_corrs")
      as (_ & Hsupport & _).
    apply Hsupport. intros [rest Hrest]. discriminate Hrest.
Defined.

(** C5.  The suffix is a function of the dictionary's items alone: it is
    empty for an empty dictionary, a lone [key:value] for one entry, and
    otherwise the first entry's [key:value], a "|" and the suffix of the
    remaining entries.  When no encoded entry contains "|", cutting the
    suffix at "|" gives back the [key:value] texts of the entries, one per
    entry and in the dictionary's order.  The notebook's two presets encode
    as [agg:mean|supports:20] and [agg:None|kernel_size:3|reduce_func:mean]. *)
Theorem param_suffix_order_preserving (kwargs : Kwargs) :
  let encode := fun item : string * PyVal => item.1 ++ ":" ++ py_str item.2 in
  MetricReporter.param_suffix [] = ""
  /\ (forall item, MetricReporter.param_suffix [item] = encode item)
  /\ (forall item next rest,
        MetricReporter.param_suffix (item :: next :: rest)
        = encode item ++ "|" ++ MetricReporter.param_suffix (next :: rest))
  /\ (kwargs <> [] ->
      Forall (fun item => count "|" (encode item) = 0%nat) kwargs ->
      split "|" (MetricReporter.param_suffix kwargs) = encode <$> kwargs)
  /\ MetricReporter.param_suffix
       (MetricReporter.support_kwargs (MetricReporter.notebook_config []))
     = "agg:mean|supports:20"
  /\ MetricReporter.param_suffix
       (MetricReporter.local_kwargs (MetricReporter.notebook_config []))
     = "agg:None|kernel_size:3|reduce_func:mean".
Proof.
  intros encode.
  repeat split; try reflexivity.
  intros Hne Hclean.
  change (split "|" (join "|" (encode <$> kwargs)) = encode <$> kwargs).
  apply split_join.
  - destruct kwargs; [contradiction|discriminate].
  - apply Forall_fmap. assumption.
Qed.

Lemma param_suffix_order_preserving_witness :
  split "|" (MetricReporter.param_suffix
               [("agg", PyNone); ("kernel_size", PyInt 3);
                ("reduce_func", PyStr "mean")])
  = ["agg:None"; "kernel_size:3"; "reduce_func:mean"].
Proof.
  destruct (param_suffix_order_preserving
              [("agg", PyNone); ("kernel_size", PyInt 3);
               ("reduce_func", PyStr "mean")])
    as (_ & _ & _ & Hsplit & _).
  apply Hsplit.
  - discriminate.
  - repeat constructor.
Defined.

(** ** Output directories *)

Lemma call_run `{Seismiqb} {A} (ev : exn + A -> Event)
    (f : World -> (exn + A) * World) (s : Run) :
  call ev f s =
  ((f (world s)).1,
   {| world := (f (world s)).2; log := log s ++ [ev (f (world s)).1] |}).
Proof. unfold call. destruct (f (world s)) as [r w]. reflexivity. Qed.

(** What [try: os.mkdir(path) / except FileExistsError: pass] does, by the
    outcome of [os.mkdir]. *)
Lemma mkdir_exist_ok_run `{Seismiqb} (path : string) (s : Run) :
  let r := (os_mkdir path (world s)).1 in
  let s' := {| world := (os_mkdir path (world s)).2;
               log := log s ++ [EvMkdir path] |} in
  mkdir_exist_ok path s
  = (match r with inl FileExistsError => inr tt | other => other end, s').
Proof.
  unfold mkdir_exist_ok, except_FileExistsError_pass. rewrite call_run.
  destruct (os_mkdir path (world s)) as [[e|[]] w]; simpl; [|reflexivity].
  destruct e; reflexivity.
Qed.

Section MkdirContract.
Context `{Seismiqb}.

(** The contract of [os.mkdir] that matters here: on an existing directory it
    raises [FileExistsError]; when it raises [FileExistsError] it has changed
    nothing; when it returns, the directory exists. *)
Variable dir_exists : string -> World -> Prop.
Hypothesis mkdir_existing : forall path w,
  dir_exists path w -> os_mkdir path w = (inl FileExistsError, w).
Hypothesis mkdir_refused : forall path w w',
  os_mkdir path w = (inl FileExistsError, w') -> w' = w.
Hypothesis mkdir_created : forall path w w',
  os_mkdir path w = (inr tt, w') -> dir_exists path w'.

(** C4 (amended).  Creating an output directory swallows exactly the
    exception [FileExistsError]: whenever [os.mkdir] raises it, because the
    directory is already there or because something else, such as a regular
    file, is at the path, the creation raises nothing and leaves the outside
    world as it was; so creating a directory that already exists raises
    nothing and changes nothing, and creating it a second time, after a first
    creation that returned, raises nothing and changes nothing more.  Every
    [os.mkdir] failure other than [FileExistsError] is raised to the caller
    unchanged, and every exception the creation raises is such a failure of
    [os.mkdir]. *)
Theorem mkdir_exist_ok_idempotent (path : string) (s : Run) :
  (forall w', os_mkdir path (world s) = (inl FileExistsError, w') ->
   exists s', mkdir_exist_ok path s = (inr tt, s') /\ world s' = world s)
  /\ (dir_exists path (world s) ->
      exists s', mkdir_exist_ok path s = (inr tt, s') /\ world s' = world s)
  /\ (forall s1, mkdir_exist_ok path s = (inr tt, s1) ->
      exists s2, mkdir_exist_ok path s1 = (inr tt, s2) /\ world s2 = world s1)
  /\ (forall e w', os_mkdir path (world s) = (inl e, w') ->
      e <> FileExistsError ->
      exists s', mkdir_exist_ok path s = (inl e, s') /\ world s' = w')
  /\ (forall e s', mkdir_exist_ok path s = (inl e, s') ->
      e <> FileExistsError
      /\ os_mkdir path (world s) = (inl e, world s')).
Proof.
  assert (Hswallowed : forall (t : Run) w',
            os_mkdir path (world t) = (inl FileExistsError, w') ->
            exists t', mkdir_exist_ok path t = (inr tt, t')
                       /\ world t' = world t).
  { intros t w' Hos. pose proof (mkdir_refused _ _ _ Hos) as ->.
    rewrite mkdir_exist_ok_run, Hos. simpl. eexists. split; reflexivity. }
  assert (Hexisting : forall t : Run, dir_exists path (world t) ->
            exists t', mkdir_exist_ok path t = (inr tt, t')
                       /\ world t' = world t).
  { intros t Hdir. eapply Hswallowed. apply mkdir_existing. exact Hdir. }
  split; [apply Hswallowed|]. split; [apply Hexisting|]. split; [|split].
  - intros s1. rewrite mkdir_exist_ok_run.
    destruct (os_mkdir path (world s)) as [[e|[]] w] eqn:Hos; simpl.
    + destruct e; try discriminate. intros [= <-].
      pose proof (mkdir_refused _ _ _ Hos) as ->.
      eapply Hswallowed. simpl. exact Hos.
    + intros [= <-]. apply Hexisting. simpl.
      eapply mkdir_created. eassumption.
  - intros e w' Hos Hne. rewrite mkdir_exist_ok_run. rewrite Hos. simpl.
    destruct e; try contradiction; eexists; (split; reflexivity).
  - intros e s'. rewrite mkdir_exist_ok_run.
    destruct (os_mkdir path (world s)) as [[e'|[]] w] eqn:Hos; simpl;
      [|discriminate].
    destruct e'; try discriminate; intros [= <- <-]; simpl;
      (split; [discriminate|reflexivity]).
Qed.

End MkdirContract.

(** The file world's [mkdir] meets the contract, a directory existing when
    it is listed among the directories. *)
Lemma files_mkdir_existing (path : string) (fs : ToyFiles.Files) :
  path ∈ ToyFiles.dirs fs ->
  ToyFiles.mkdir path fs = (inl FileExistsError, fs).
Proof.
  intros Hin. unfold ToyFiles.mkdir.
  rewrite decide_True by (apply elem_of_app; left; assumption). reflexivity.
Qed.

Lemma files_mkdir_refused (path : string) (fs fs' : ToyFiles.Files) :
  ToyFiles.mkdir path fs = (inl FileExistsError, fs') -> fs' = fs.
Proof.
  unfold ToyFiles.mkdir. case_decide; [intros [= <-]; reflexivity|discriminate].
Qed.

Lemma files_mkdir_created (path : string) (fs fs' : ToyFiles.Files) :
  ToyFiles.mkdir path fs = (inr tt, fs') -> path ∈ ToyFiles.dirs fs'.
Proof.
  unfold ToyFiles.mkdir. case_decide; [discriminate|].
  intros [= <-]. apply list_elem_of_here.
Qed.

Lemma mkdir_exist_ok_idempotent_witness :
  (exists s', @mkdir_exist_ok ToyFiles.toy "cube_demo"
                (ToyFiles.start_with [] ["cube_demo"]) = (inr tt, s')
              /\ world s' = world (ToyFiles.start_with [] ["cube_demo"]))
  /\ (exists s', @mkdir_exist_ok ToyFiles.toy "cube_demo"
                   (ToyFiles.start_with ["cube_demo"] []) = (inr tt, s')
                 /\ world s' = world (ToyFiles.start_with ["cube_demo"] [])).
Proof.
  split.
  - destruct (@mkdir_exist_ok_idempotent ToyFiles.toy
                (fun path fs => path ∈ ToyFiles.dirs fs)
                files_mkdir_existing files_mkdir_refused files_mkdir_created
                "cube_demo" (ToyFiles.start_with [] ["cube_demo"]))
      as (Hswallowed & _).
    eapply Hswallowed. vm_compute. reflexivity.
  - destruct (@mkdir_exist_ok_idempotent ToyFiles.toy
                (fun path fs => path ∈ ToyFiles.dirs fs)
                files_mkdir_existing files_mkdir_refused files_mkdir_created
                "cube_demo" (ToyFiles.start_with ["cube_demo"] []))
      as (_ & Hexisting & _).
    apply Hexisting. vm_compute. apply list_elem_of_here.
Defined.

(** C4, as first stated, fails where a regular file is in the way: no
    directory exists at the path, [os.mkdir] fails, and yet nothing is raised
    to the caller and no directory has been made. *)
Lemma mkdir_exist_ok_swallows_file_in_the_way :
  let s := ToyFiles.start_with [] ["cube_demo"] in
  ("cube_demo" ∉ ToyFiles.dirs (world s))
  /\ @os_mkdir ToyFiles.toy "cube_demo" (world s)
     = (inl FileExistsError, world s)
  /\ exists s', @mkdir_exist_ok ToyFiles.toy "cube_demo" s = (inr tt, s')
                /\ ("cube_demo" ∉ ToyFiles.dirs (world s')).
Proof.
  intros s. split; [apply not_elem_of_nil|].
  split; [vm_compute; reflexivity|].
  eexists. split; [vm_compute; reflexivity|]. apply not_elem_of_nil.
Qed.

(** ** Metric reporter: what a cube's run records *)

Section ReporterLog.
Context `{Seismiqb}.
Open Scope list_scope.

Lemma quiet_nil : quiet [].
Proof. split; [constructor|reflexivity]. Qed.

Lemma quiet_app (a b : list Event) : quiet a -> quiet b -> quiet (a ++ b).
Proof.
  intros [Ha Ea] [Hb Eb]. split; [apply Forall_app; split; assumption|].
  unfold evaluations in *. rewrite omap_app, Ea, Eb. reflexivity.
Qed.

Lemma evaluations_app (a b : list Event) :
  evaluations (a ++ b) = evaluations a ++ evaluations b.
Proof. apply omap_app. Qed.

Lemma call_log {A} (ev : exn + A -> Event)
    (f : World -> (exn + A) * World) (s : Run) r s' :
  call ev f s = (r, s') ->
  log s' = log s ++ [ev r] /\ f (world s) = (r, world s').
Proof.
  rewrite call_run. intros [= <- <-]. simpl.
  split; [reflexivity|]. destruct (f (world s)); reflexivity.
Qed.

Lemma mkdir_exist_ok_log (path : string) (s : Run) r s' :
  mkdir_exist_ok path s = (r, s') -> log s' = log s ++ [EvMkdir path].
Proof. rewrite mkdir_exist_ok_run. intros [= _ <-]. reflexivity. Qed.

Lemma show_geometry_log (show : bool) (geometry : Geometry) (s : Run) r s' :
  show_geometry show geometry s = (r, s') ->
  exists evs, log s' = log s ++ evs /\ quiet evs.
Proof.
  unfold show_geometry. destruct show.
  - intros Hrun.
    apply bind_cases in Hrun as [(e & H1 & _)|(a & s1 & H1 & Hrun)].
    { apply call_log in H1 as [-> _]. eexists. split; [reflexivity|].
      split; [repeat constructor|reflexivity]. }
    apply bind_cases in Hrun as [(e & H2 & _)|(b & s2 & H2 & H3)].
    { apply call_log in H1 as [E1 _]. apply call_log in H2 as [-> _].
      rewrite E1, <- app_assoc. eexists. split; [reflexivity|].
      split; [repeat constructor|reflexivity]. }
    apply call_log in H1 as [E1 _]. apply call_log in H2 as [E2 _].
    apply call_log in H3 as [-> _].
    rewrite E2, E1, <- !app_assoc. eexists. split; [reflexivity|].
    split; [repeat constructor|reflexivity].
  - intros [= _ <-]. exists []. rewrite app_nil_r.
    split; [reflexivity|apply quiet_nil].
Qed.

(** One pass of the metric loop records one evaluation, of that metric with
    its preset, and nothing that is a quality map; when it completes, the
    result has been appended to [computed_metrics] and [kwargs] is bound to
    the preset. *)
Lemma evaluate_metric_log (cfg : MetricReporter.Config)
    (geometry : Geometry) (gm : GeometryMetrics) (cube_dir : string)
    (vars : MetricReporter.LoopVars) (metric_name : string) (s : Run) r s' :
  MetricReporter.evaluate_metric cfg geometry gm cube_dir vars metric_name s
  = (r, s') ->
  exists evs outcome,
    log s' = log s ++ evs
    /\ Forall (fun ev => is_quality_map ev = false) evs
    /\ evaluations evs = [(metric_name, outcome)]
    /\ forall vars', r = inr vars' ->
         exists metric,
           outcome = inr metric
           /\ MetricReporter.computed_metrics vars'
              = MetricReporter.computed_metrics vars ++ [metric]
           /\ MetricReporter.kwargs_var vars'
              = Some (MetricReporter.select_kwargs cfg metric_name).
Proof.
  unfold MetricReporter.evaluate_metric, MetricReporter.add_prefix.
  intros Hrun.
  apply bind_cases in Hrun as [(e & H1 & ->)|(sp & s1 & H1 & Hrun)].
  { exfalso. unfold lift in H1.
    destruct (MetricReporter.ADD_PREFIX cfg); discriminate. }
  assert (s1 = s) as -> by (unfold lift in H1; congruence). clear H1.
  apply bind_cases in Hrun as [(e & H2 & ->)|(metric & s2 & H2 & Hrun)].
  { apply call_log in H2 as [-> _]. eexists _, (inl e).
    split; [reflexivity|]. split; [repeat constructor|].
    split; [reflexivity|discriminate]. }
  apply call_log in H2 as [E2 _].
  apply bind_cases in Hrun as [(e & H3 & ->)|([] & s3 & H3 & Hrun)].
  - destruct (MetricReporter.SAVE_POINT_CLOUDS cfg); [|discriminate].
    apply call_log in H3 as [-> _]. rewrite E2, <- app_assoc.
    eexists _, (inr metric). split; [reflexivity|].
    split; [repeat constructor|]. split; [reflexivity|discriminate].
  - injection Hrun as <- <-.
    assert (Htail : exists tail, log s3 = log s2 ++ tail
                                 /\ (tail = [] \/ exists p q,
                                       tail = [EvSavePointCloud p q])).
    { destruct (MetricReporter.SAVE_POINT_CLOUDS cfg).
      - apply call_log in H3 as [-> _]. eexists. split; [reflexivity|].
        right. eexists _, _. reflexivity.
      - injection H3 as <-. exists []. rewrite app_nil_r.
        split; [reflexivity|left; reflexivity]. }
    destruct Htail as (tail & -> & Htail). rewrite E2, <- app_assoc.
    eexists _, (inr metric). split; [reflexivity|].
    split; [|split].
    + constructor; [reflexivity|].
      destruct Htail as [->|(p & q & ->)]; repeat constructor.
    + destruct Htail as [->|(p & q & ->)]; reflexivity.
    + intros vars' [= <-]. exists metric. repeat split; reflexivity.
Qed.

(** The preset the name [kwargs] is bound to after the metric loop: the one
    of the last metric, or the earlier binding when the list is empty. *)
Lemma last_snoc_preset (cfg : MetricReporter.Config)
    (before : option Kwargs) (name : string) (names : list string) :
  match last (name :: names) with
  | Some n => Some (MetricReporter.select_kwargs cfg n)
  | None => before
  end
  = match last names with
    | Some n => Some (MetricReporter.select_kwargs cfg n)
    | None => Some (MetricReporter.select_kwargs cfg name)
    end.
Proof.
  destruct names as [|n names]; [reflexivity|]. rewrite last_cons_cons.
  destruct (last (n :: names)) eqn:Hlast; [reflexivity|].
  apply last_None in Hlast. discriminate.
Qed.

(** The metric loop records the evaluations of the metrics, one per name and
    in order, and no quality map; when it completes, [computed_metrics] has
    gained exactly the results, in that order. *)
Lemma metric_loop_log (cfg : MetricReporter.Config)
    (geometry : Geometry) (gm : GeometryMetrics) (cube_dir : string)
    (names : list string) (vars : MetricReporter.LoopVars) (s : Run) r s' :
  for_fold names (MetricReporter.evaluate_metric cfg geometry gm cube_dir)
    vars s = (r, s') ->
  exists evs,
    log s' = log s ++ evs
    /\ Forall (fun ev => is_quality_map ev = false) evs
    /\ forall vars', r = inr vars' ->
         exists results,
           evaluations evs = zip names (inr <$> results)
           /\ length results = length names
           /\ MetricReporter.computed_metrics vars'
              = MetricReporter.computed_metrics vars ++ results
           /\ MetricReporter.kwargs_var vars'
              = match last names with
                | Some n => Some (MetricReporter.select_kwargs cfg n)
                | None => MetricReporter.kwargs_var vars
                end.
Proof.
  revert vars s. induction names as [|name names IH]; intros vars s Hrun.
  - injection Hrun as <- <-. exists []. rewrite app_nil_r.
    split; [reflexivity|]. split; [constructor|].
    intros vars' [= <-]. exists []. rewrite app_nil_r.
    repeat split; reflexivity.
  - simpl in Hrun.
    apply bind_cases in Hrun as [(e & H1 & ->)|(vars1 & s1 & H1 & Hrun)].
    + apply evaluate_metric_log in H1 as (evs & outcome & E & Hq & _).
      exists evs. split; [assumption|]. split; [assumption|discriminate].
    + apply evaluate_metric_log in H1 as (evs1 & outcome & E1 & Hq1 & Ev1 & Hok).
      destruct (Hok vars1 eq_refl) as (metric & -> & Hcomputed & Hkw).
      apply IH in Hrun as (evs2 & E2 & Hq2 & Hdone).
      exists (evs1 ++ evs2). rewrite E2, E1, app_assoc.
      split; [reflexivity|].
      split; [apply Forall_app; split; assumption|].
      intros vars' ->. destruct (Hdone vars' eq_refl)
        as (results & Ev2 & Hlen & Hcomputed' & Hkw').
      exists (metric :: results).
      rewrite evaluations_app, Ev1, Ev2. simpl.
      split; [reflexivity|]. split; [congruence|].
      split; [rewrite Hcomputed', Hcomputed, <- app_assoc; reflexivity|].
      rewrite Hkw', Hkw. symmetry. apply last_snoc_preset.
Qed.

(** What the run of one cube records.  Either no quality map was evaluated,
    or the record is: calls that are neither evaluations nor quality maps,
    among them the evaluations of all the metrics in order; then the one
    quality-map call, which received their results; then nothing but
    [plt.show()]. *)
Lemma report_cube_log (cfg : MetricReporter.Config)
    (kwargs_before : option Kwargs) (path_cube : string) (s : Run) r s' :
  MetricReporter.report_cube cfg kwargs_before path_cube s = (r, s') ->
  exists evs,
    log s' = log s ++ evs
    /\ (Forall (fun ev => is_quality_map ev = false) evs
        \/ exists geometry w pre post results save_path,
             new_geometry path_cube (world s) = (inr geometry, w)
             /\ evs = pre ++ EvQualityMap [0.1%Q] PyNone results
                               (MetricReporter.SHOW cfg)
                               (MetricReporter.plot_kwargs cfg)
                               (save_path +:+ ".png") :: post
             /\ Forall (fun ev => is_quality_map ev = false) pre
             /\ evaluations pre
                = zip (MetricReporter.metrics cfg) (inr <$> results)
             /\ length results = length (MetricReporter.metrics cfg)
             /\ quiet post
             /\ MetricReporter.add_prefix cfg
                  (join "/" [join "/" [MetricReporter.script_dir cfg;
                                       short_name geometry];
                             "quality_map"])
                  match last (MetricReporter.metrics cfg) with
                  | Some n => Some (MetricReporter.select_kwargs cfg n)
                  | None => kwargs_before
                  end
                = inr save_path).
Proof.
  unfold MetricReporter.report_cube. intros Hrun.
  apply bind_cases in Hrun as [(e & H1 & ->)|(geometry & s1 & H1 & Hrun)].
  { apply call_log in H1 as [-> _]. eexists. split; [reflexivity|].
    left. repeat constructor. }
  apply call_log in H1 as [E1 Hgeo].
  apply bind_cases in Hrun as [(e & H2 & ->)|(gm & s2 & H2 & Hrun)].
  { apply call_log in H2 as [-> _]. rewrite E1, <- app_assoc.
    eexists. split; [reflexivity|]. left. repeat constructor. }
  apply call_log in H2 as [E2 _].
  apply bind_cases in Hrun as [(e & H3 & ->)|([] & s3 & H3 & Hrun)].
  { apply mkdir_exist_ok_log in H3 as ->. rewrite E2, E1, <- !app_assoc.
    eexists. split; [reflexivity|]. left. repeat constructor. }
  apply mkdir_exist_ok_log in H3 as E3.
  assert (Esetup : log s3 = log s ++ [EvGeometry path_cube; EvMetrics;
                      EvMkdir (join "/" [MetricReporter.script_dir cfg;
                                         short_name geometry])]).
  { rewrite E3, E2, E1, <- !app_assoc. reflexivity. }
  clear E1 E2 E3.
  assert (Hsetup : quiet [EvGeometry path_cube; EvMetrics;
                      EvMkdir (join "/" [MetricReporter.script_dir cfg;
                                         short_name geometry])]).
  { split; [repeat constructor|reflexivity]. }
  revert Esetup Hsetup. generalize [EvGeometry path_cube; EvMetrics;
                      EvMkdir (join "/" [MetricReporter.script_dir cfg;
                                         short_name geometry])].
  intros setup Esetup Hsetup.
  apply bind_cases in Hrun as [(e & H4 & ->)|([] & s4 & H4 & Hrun)].
  { apply show_geometry_log in H4 as (evs & -> & [Hq _]).
    rewrite Esetup, <- app_assoc. eexists. split; [reflexivity|].
    left. apply Forall_app. split; [apply Hsetup|assumption]. }
  apply show_geometry_log in H4 as (shown & E4 & Hshown).
  pose proof (quiet_app _ _ Hsetup Hshown) as Hbefore.
  assert (Ebefore : log s4 = log s ++ (setup ++ shown))
    by (rewrite E4, Esetup, <- app_assoc; reflexivity).
  clear E4 Esetup Hsetup Hshown. revert Ebefore Hbefore.
  generalize (setup ++ shown). clear setup shown.
  intros before Ebefore [Hbq Hbe].
  apply bind_cases in Hrun as [(e & H5 & ->)|(vars & s5 & H5 & Hrun)].
  { apply metric_loop_log in H5 as (evs & -> & Hq & _).
    rewrite Ebefore, <- app_assoc. eexists. split; [reflexivity|].
    left. apply Forall_app. split; assumption. }
  apply metric_loop_log in H5 as (loop & E5 & Hlq & Hloop).
  destruct (Hloop vars eq_refl) as (results & Hevals & Hlen & Hcomputed & Hkw).
  simpl in Hcomputed, Hkw. clear Hloop.
  apply bind_cases in Hrun as [(e & H6 & ->)|(save_path & s6 & H6 & Hrun)].
  { unfold lift in H6. injection H6 as _ <-.
    rewrite E5, Ebefore, <- app_assoc. eexists. split; [reflexivity|].
    left. apply Forall_app. split; assumption. }
  unfold lift in H6. injection H6 as Hpath <-. rewrite Hkw in Hpath.
  assert (Htail : exists post, log s' = log s5 ++ EvQualityMap [0.1%Q] PyNone
                      (MetricReporter.computed_metrics vars)
                      (MetricReporter.SHOW cfg)
                      (MetricReporter.plot_kwargs cfg)
                      (save_path +:+ ".png") :: post /\ quiet post).
  { apply bind_cases in Hrun as [(e & H7 & ->)|(qm & s7 & H7 & Hrun)].
    { apply call_log in H7 as [-> _]. exists []. split; [reflexivity|].
      apply quiet_nil. }
    apply call_log in H7 as [E7 _].
    apply bind_cases in Hrun as [(e & H8 & ->)|([] & s8 & H8 & Hrun)].
    - apply call_log in H8 as [-> _]. rewrite E7, <- app_assoc.
      eexists. split; [reflexivity|]. split; [repeat constructor|reflexivity].
    - injection Hrun as _ <-. apply call_log in H8 as [-> _].
      rewrite E7, <- app_assoc.
      eexists. split; [reflexivity|]. split; [repeat constructor|reflexivity]. }
  destruct Htail as (post & -> & Hpost).
  rewrite E5, Ebefore, <- !app_assoc. eexists. split; [reflexivity|].
  right. exists geometry, (world s1), (before ++ loop), post, results, save_path.
  rewrite Hcomputed. simpl. rewrite <- app_assoc.
  split; [assumption|]. split; [reflexivity|].
  split; [apply Forall_app; split; assumption|].
  split; [rewrite evaluations_app, Hbe; assumption|].
  split; [assumption|]. split; assumption.
Qed.

End ReporterLog.

(** ** Summarizer: what a run may change *)

Section StoreFrame.
Import Summarizer.
Open Scope list_scope.

Lemma untouched_refl D st : untouched D st st.
Proof. split; [reflexivity|]. split; [set_solver|]. intros; reflexivity. Qed.

Lemma untouched_trans D st1 st2 st3 :
  untouched D st1 st2 -> untouched D st2 st3 -> untouched D st1 st3.
Proof.
  intros (Hd1 & Hs1 & Hk1) (Hd2 & Hs2 & Hk2). split; [congruence|].
  split; [set_solver|]. intros ref Href. rewrite Hk2, Hk1 by assumption.
  reflexivity.
Qed.

Lemma keeps_weaken D {A} (m : M Store A) (Q R : A -> Prop) :
  keeps D m Q -> (forall a, Q a -> R a) -> keeps D m R.
Proof.
  intros Hm HQR st r st' HD Hrun. destruct (Hm _ _ _ HD Hrun) as [Hu Hq].
  split; [assumption|]. intros a Ha. apply HQR, Hq, Ha.
Qed.

Lemma keeps_ret D {A} (a : A) (Q : A -> Prop) : Q a -> keeps D (ret a) Q.
Proof.
  intros Ha st r st' _ [= <- <-]. split; [apply untouched_refl|].
  intros b [= <-]. assumption.
Qed.

Lemma keeps_lift D {A} (r : exn + A) : keeps D (lift r) (fun a => r = inr a).
Proof.
  intros st r' st' _ [= <- <-]. split; [apply untouched_refl|].
  intros a Ha. assumption.
Qed.

Lemma keeps_bind D {A B} (m : M Store A) (k : A -> M Store B)
    (Q : A -> Prop) (R : B -> Prop) :
  keeps D m Q -> (forall a, Q a -> keeps D (k a) R) -> keeps D (bind m k) R.
Proof.
  intros Hm Hk st r st' HD Hrun.
  apply bind_cases in Hrun as [(e & Hrun & ->)|(a & st1 & Hrun & Hrest)].
  - destruct (Hm _ _ _ HD Hrun) as [Hu _]. split; [assumption|discriminate].
  - destruct (Hm _ _ _ HD Hrun) as [Hu Hq].
    assert (HD1 : D ⊆ dom (heap st1)) by (destruct Hu as (_ & Hs & _); set_solver).
    destruct (Hk a (Hq a eq_refl) _ _ _ HD1 Hrest) as [Hu' Hr].
    split; [eapply untouched_trans; eassumption|assumption].
Qed.

(** A new object is none of the old ones. *)
Lemma keeps_alloc D (f : Frame) : keeps D (alloc f) (fun ref => ref ∉ D).
Proof.
  intros st r st' HD [= <- <-].
  pose proof (is_fresh (dom (heap st))) as Hfresh.
  split.
  - split; [reflexivity|]. simpl. split; [rewrite dom_insert_L; set_solver|].
    intros ref Href. apply lookup_insert_ne. set_solver.
  - intros a [= <-]. set_solver.
Qed.

Lemma keeps_deref D (ref : nat) : keeps D (deref ref) (fun _ => True).
Proof.
  intros st r st' _. unfold deref.
  destruct (heap st !! ref); intros [= <- <-];
    (split; [apply untouched_refl|trivial]).
Qed.

(** An in-place change of an object outside [D]. *)
Lemma keeps_update D (ref : nat) (change : Frame -> Frame) :
  ref ∉ D -> keeps D (update ref change) (fun _ => True).
Proof.
  intros Href st r st' _ [= <- <-]. split; [|trivial].
  split; [reflexivity|]. simpl. split.
  - intros x Hx. apply elem_of_dom. apply elem_of_dom in Hx.
    apply lookup_alter_is_Some. assumption.
  - intros x Hx. apply lookup_alter_ne. set_solver.
Qed.

Lemma keeps_display D (out : Shown) : keeps D (display out) (fun _ => True).
Proof.
  intros st r st' _ [= <- <-]. split; [|trivial].
  split; [reflexivity|]. split; [set_solver|]. intros; reflexivity.
Qed.

Lemma keeps_load D (name : string) : keeps D (load_results name) (fun ref => ref ∉ D).
Proof.
  intros st r st' HD. unfold load_results.
  destruct (disk st !! name) as [f|].
  - apply keeps_alloc. assumption.
  - intros [= <- <-]. split; [apply untouched_refl|discriminate].
Qed.

Create HintDb store_frame discriminated.

#[local] Hint Resolve keeps_alloc keeps_deref keeps_display keeps_load keeps_lift
  keeps_update : store_frame.

(** One step of a cell: a bind whose first computation is covered by the
    lemmas above. *)
Ltac keep_step :=
  lazymatch goal with
  | |- keeps _ (bind _ _) _ =>
      eapply keeps_bind; [solve [eauto with store_frame]|cbv beta; intros ? ?]
  | |- keeps _ (ret _) _ => apply keeps_ret
  | |- keeps _ _ _ => solve [eauto with store_frame]
  end.

Lemma keeps_getitem_columns D ref labels :
  keeps D (getitem_columns ref labels) (fun r => r ∉ D).
Proof. unfold getitem_columns. repeat keep_step. Qed.

Lemma keeps_getitem_column D ref label :
  keeps D (getitem_column ref label) (fun _ => True).
Proof.
  unfold getitem_column. keep_step.
  eapply keeps_weaken; [apply keeps_lift|trivial].
Qed.

Lemma keeps_setitem_column D ref label cells :
  ref ∉ D -> keeps D (setitem_column ref label cells) (fun _ => True).
Proof. intros Href. unfold setitem_column. repeat keep_step. Qed.

Lemma keeps_reset_index_of D ref :
  keeps D (reset_index_of ref) (fun r => r ∉ D).
Proof. unfold reset_index_of. repeat keep_step. Qed.

Lemma keeps_set_index_of D ref labels :
  keeps D (set_index_of ref labels) (fun r => r ∉ D).
Proof. unfold set_index_of. repeat keep_step. Qed.

Lemma keeps_raise D {A} (e : exn) (Q : A -> Prop) : keeps D (raise e) Q.
Proof.
  intros st r st' _ [= <- <-]. split; [apply untouched_refl|discriminate].
Qed.

Lemma keeps_per_iteration D ref label stem :
  keeps D (per_iteration ref label stem) (fun r => r ∉ D).
Proof.
  unfold per_iteration. keep_step.
  eapply keeps_bind; [apply keeps_lift|]. intros cells _.
  destruct cells; [apply keeps_raise|repeat keep_step].
Qed.

#[local] Hint Resolve keeps_getitem_columns keeps_getitem_column keeps_setitem_column
  keeps_reset_index_of keeps_set_index_of keeps_per_iteration : store_frame.

Lemma keeps_cell_load D : keeps D cell_load (fun ref => ref ∉ D).
Proof. unfold cell_load. repeat keep_step. assumption. Qed.

Lemma keeps_cell_transform D results_df :
  keeps D (cell_transform results_df) (fun _ => True).
Proof. unfold cell_transform. repeat keep_step. trivial. Qed.

Lemma keeps_cell_head D dff : keeps D (cell_head dff) (fun _ => True).
Proof. unfold cell_head. repeat keep_step. Qed.

Lemma keeps_cell_reshape D dff : keeps D (cell_reshape dff) (fun _ => True).
Proof. unfold cell_reshape. repeat keep_step. trivial. Qed.

#[local] Hint Resolve keeps_cell_load keeps_cell_transform keeps_cell_head
  keeps_cell_reshape : store_frame.

(** The frame a load puts in the heap is the persisted table. *)
Lemma cell_load_inr st ref st1 :
  cell_load st = (inr ref, st1) ->
  (ref ∉ dom (heap st))
  /\ heap st1 !! ref = disk st !! res_name.
Proof.
  unfold cell_load. intros Hrun.
  apply bind_inr in Hrun as (ref' & s1 & Hload & Hrun).
  apply bind_inr in Hrun as (f & s2 & Hderef & Hrun).
  apply bind_inr in Hrun as ([] & s3 & Hshow & Hrun).
  injection Hrun as <- <-. injection Hshow as <-.
  unfold deref in Hderef. destruct (heap s1 !! ref') eqn:Hl; [|discriminate].
  injection Hderef as <- <-.
  unfold load_results in Hload.
  destruct (disk st !! res_name) as [g|]; [|discriminate].
  injection Hload as <- <-. simpl.
  split; [apply is_fresh|]. apply lookup_insert_eq.
Qed.

(** C10.  Whatever the outcome of the notebook's run: the persisted results
    are what they were; every frame that existed before the run is what it
    was; and the frame loaded from the persisted results holds, at the end,
    the table that was loaded.  The only frames changed in place are ones
    the run itself created. *)
Theorem notebook_keeps_store (st : Store) r st' :
  notebook st = (r, st') ->
  disk st' = disk st
  /\ (forall ref, ref ∈ dom (heap st) -> heap st' !! ref = heap st !! ref)
  /\ (forall results_df st1,
        cell_load st = (inr results_df, st1) ->
        heap st1 !! results_df = disk st !! res_name
        /\ heap st' !! results_df = heap st1 !! results_df).
Proof.
  intros Hrun.
  assert (Hall : keeps (dom (heap st)) notebook (fun _ => True)).
  { unfold notebook. repeat keep_step. trivial. }
  destruct (Hall st r st' ltac:(set_solver) Hrun) as [(Hdisk & _ & Hold) _].
  split; [assumption|]. split; [assumption|].
  intros results_df st1 Hload.
  pose proof (cell_load_inr _ _ _ Hload) as [_ Hloaded].
  split; [assumption|].
  unfold notebook in Hrun.
  apply bind_cases in Hrun as [(e & Hfail & _)|(ref & st1' & Hload' & Hrest)];
    [congruence|].
  assert (ref = results_df /\ st1' = st1) as [-> ->] by (split; congruence).
  assert (Hrest_keeps :
            keeps (dom (heap st1))
              (frames <- cell_transform results_df ;;
               cell_head frames.2 ;;;
               wide <- cell_reshape frames.2 ;;
               ret {| Summarizer.results_df := results_df;
                      df := frames.1; dff := frames.2;
                      wr := wide.1.1; cov := wide.1.2; corrs := wide.2 |})
              (fun _ => True)).
  { repeat keep_step. trivial. }
  destruct (Hrest_keeps st1 r st' ltac:(set_solver) Hrest) as [(_ & _ & Hkept) _].
  apply Hkept. apply elem_of_dom. rewrite Hloaded.
  unfold cell_load in Hload. apply bind_inr in Hload as (x & s1 & Hl & _).
  unfold load_results in Hl. destruct (disk st !! res_name); [eauto|discriminate].
Qed.

End StoreFrame.

Lemma notebook_keeps_store_witness :
  let run := Summarizer.notebook Toy.store in
  Summarizer.disk run.2 = Summarizer.disk Toy.store
  /\ (forall ref, ref ∈ dom (Summarizer.heap Toy.store) ->
        Summarizer.heap run.2 !! ref = Summarizer.heap Toy.store !! ref)
  /\ (forall results_df st1,
        Summarizer.cell_load Toy.store = (inr results_df, st1) ->
        Summarizer.heap st1 !! results_df
        = Summarizer.disk Toy.store !! Summarizer.res_name
        /\ Summarizer.heap run.2 !! results_df
           = Summarizer.heap st1 !! results_df).
Proof.
  intros run.
  apply (notebook_keeps_store Toy.store run.1 run.2).
  vm_compute. reflexivity.
Defined.

(** In the small store the run completes and the loaded frame is still the
    persisted table. *)
Example notebook_run_on_table :
  exists names st',
    Summarizer.notebook Toy.store = (inr names, st')
    /\ Summarizer.heap st' !! Summarizer.results_df names = Some Toy.table
    /\ Summarizer.disk st' !! Summarizer.res_name = Some Toy.table.
Proof.
  eexists _, _. split; [vm_compute; reflexivity|].
  split; vm_compute; reflexivity.
Qed.

(** ** Summarizer: the composite key and the two-level index *)

Section KeySplit.
Import Summarizer.
Open Scope list_scope.

Lemma composite_split (keys : list string) :
  Forall (fun key => count "+" key = 1%nat) keys ->
  exists pairs : list (string * string),
    keys = composite <$> pairs
    /\ Forall (fun p => split "+" (composite p) = [p.1; p.2]) pairs.
Proof.
  induction 1 as [|key keys Hkey _ (pairs & -> & Hpairs)].
  - exists []. split; [reflexivity|constructor].
  - apply split_single in Hkey as (a & b & -> & _ & _ & Hsplit).
    exists ((a, b) :: pairs). split; [reflexivity|].
    constructor; assumption.
Qed.

Lemma apply_split_item (pairs : list (string * string)) :
  Forall (fun p => split "+" (composite p) = [p.1; p.2]) pairs ->
  apply_cells (split_item 0) (CStr <$> (composite <$> pairs))
  = inr (CStr <$> pairs.*1)
  /\ apply_cells (split_item 1) (CStr <$> (composite <$> pairs))
     = inr (CStr <$> pairs.*2).
Proof.
  induction 1 as [|p pairs Hp _ [IH0 IH1]]; [split; reflexivity|].
  rewrite !fmap_cons. cbn [apply_cells split_item]. rewrite IH0, IH1.
  unfold getitem. rewrite Hp. split; reflexivity.
Qed.

Lemma rows_of_pairs (pairs : list (string * string)) :
  rows_of (length pairs) [CStr <$> pairs.*1; CStr <$> pairs.*2]
  = (fun p => [CStr p.1; CStr p.2]) <$> pairs.
Proof.
  induction pairs as [|p pairs IH]; [reflexivity|].
  rewrite !fmap_cons. cbn [length rows_of]. rewrite !fmap_cons.
  cbn [head tail default from_option]. rewrite <- IH. reflexivity.
Qed.

#[local] Instance index_row_inj :
  Inj eq eq (fun p : string * string => [CStr p.1; CStr p.2]).
Proof. intros [a b] [c d] [= -> ->]. reflexivity. Qed.

(** Looking a label up skips leading columns that carry other labels. *)
Lemma column_skip (names : list (option string)) (idx : list (list Cell))
    (pre cols : list (Label * list Cell)) (label : Label) :
  label ∉ pre.*1 ->
  column {| index_names := names; index := idx; columns := pre ++ cols |} label
  = column {| index_names := names; index := idx; columns := cols |} label.
Proof.
  intros Hpre. unfold column. simpl.
  induction pre as [|[l c] pre IH]; [reflexivity|].
  simpl in *. apply not_elem_of_cons in Hpre as [Hne Hpre].
  destruct (decide (l = label)) as [->|_]; [contradiction|].
  specialize (IH Hpre).
  destruct (list_find (fun c : Label * list Cell => c.1 = label) (pre ++ cols))
    as [[i x]|];
    destruct (list_find (fun c : Label * list Cell => c.1 = label) cols)
      as [[j y]|]; simpl in *; congruence.
Qed.

Lemma column_length (f : Frame) (label : Label) (cells : list Cell) :
  well_formed f -> column f label = inr cells ->
  length cells = length (index f).
Proof.
  unfold well_formed, column. intros Hwf Hcol.
  destruct (list_find _ (columns f)) as [[i [l c]]|] eqn:Hfind; [|discriminate].
  injection Hcol as ->. apply list_find_Some in Hfind as (Hi & _ & _).
  rewrite Forall_forall in Hwf.
  apply (Hwf (l, cells)). eapply list_elem_of_lookup_2. eassumption.
Qed.

(** *** The store operations, when they return *)

Lemma deref_inr ref st f st' :
  deref ref st = (inr f, st') -> st' = st /\ heap st !! ref = Some f.
Proof.
  unfold deref. destruct (heap st !! ref); [|discriminate].
  intros [= -> ->]. split; reflexivity.
Qed.

Lemma getitem_columns_inr ref labels st r st' :
  getitem_columns ref labels st = (inr r, st') ->
  exists f g, heap st !! ref = Some f /\ project f labels = inr g
              /\ heap st' = <[r := g]> (heap st).
Proof.
  unfold getitem_columns. intros Hrun.
  apply bind_inr in Hrun as (f & s1 & Hf & Hrun).
  apply deref_inr in Hf as [-> Hf].
  apply bind_inr in Hrun as (g & s2 & Hg & Hrun).
  apply lift_inr in Hg as [Hg ->]. injection Hrun as <- <-.
  exists f, g. repeat split; assumption.
Qed.

Lemma getitem_column_inr ref label st cells st' :
  getitem_column ref label st = (inr cells, st') ->
  st' = st /\ exists f, heap st !! ref = Some f /\ column f label = inr cells.
Proof.
  unfold getitem_column. intros Hrun.
  apply bind_inr in Hrun as (f & s1 & Hf & Hrun).
  apply deref_inr in Hf as [-> Hf]. apply lift_inr in Hrun as [Hc ->].
  split; [reflexivity|]. exists f. split; assumption.
Qed.

Lemma setitem_column_inr ref label cells st st' :
  setitem_column ref label cells st = (inr tt, st') ->
  exists f, heap st !! ref = Some f
            /\ heap st' !! ref = Some (set_column f label cells).
Proof.
  unfold setitem_column. intros Hrun.
  apply bind_inr in Hrun as (f & s1 & Hf & Hrun).
  apply deref_inr in Hf as [-> Hf]. injection Hrun as <-. simpl.
  exists f. split; [assumption|]. rewrite lookup_alter_eq, Hf. reflexivity.
Qed.

Lemma reset_index_of_inr ref st r st' :
  reset_index_of ref st = (inr r, st') ->
  exists f g, heap st !! ref = Some f /\ reset_index f = inr g
              /\ heap st' = <[r := g]> (heap st).
Proof.
  unfold reset_index_of. intros Hrun.
  apply bind_inr in Hrun as (f & s1 & Hf & Hrun).
  apply deref_inr in Hf as [-> Hf].
  apply bind_inr in Hrun as (g & s2 & Hg & Hrun).
  apply lift_inr in Hg as [Hg ->]. injection Hrun as <- <-.
  exists f, g. repeat split; assumption.
Qed.

Lemma set_index_of_inr ref labels st r st' :
  set_index_of ref labels st = (inr r, st') ->
  exists f g, heap st !! ref = Some f /\ set_index f labels = inr g
              /\ heap st' = <[r := g]> (heap st).
Proof.
  unfold set_index_of. intros Hrun.
  apply bind_inr in Hrun as (f & s1 & Hf & Hrun).
  apply deref_inr in Hf as [-> Hf].
  apply bind_inr in Hrun as (g & s2 & Hg & Hrun).
  apply lift_inr in Hg as [Hg ->]. injection Hrun as <- <-.
  exists f, g. repeat split; assumption.
Qed.

Lemma enumerate_snd {A} (xs : list A) : (enumerate xs).*2 = xs.
Proof. unfold enumerate. apply snd_zip. rewrite length_seq. reflexivity. Qed.

(** [reset_index] puts the index in front of the columns, under labels that
    are not column labels, and keeps the number of rows. *)
Lemma reset_index_inr (f g : Frame) :
  reset_index f = inr g ->
  exists pre,
    columns g = pre ++ columns f
    /\ (forall l, l ∈ (columns f).*1 -> l ∉ pre.*1)
    /\ length (index g) = length (index f).
Proof.
  unfold reset_index.
  destruct (decide (Exists _ (index_labels (index_names f)))) as [|Hclash];
    [discriminate|].
  intros [= <-]. simpl. eexists. split; [reflexivity|].
  split; [|rewrite length_fmap, length_seq; reflexivity].
  intros l Hl Hpre. apply Hclash. apply Exists_exists. exists l.
  split; [|assumption].
  rewrite <- list_fmap_compose in Hpre.
  rewrite <- (enumerate_snd (index_labels (index_names f))).
  exact Hpre.
Qed.

Lemma project_inr (f g : Frame) (labels : list Label) :
  project f labels = inr g ->
  index g = index f /\ index_names g = index_names f.
Proof.
  unfold project. destruct (select_columns f labels); [discriminate|].
  intros [= <-]. split; reflexivity.
Qed.

(** C7.  When every composite key of the loaded table holds exactly one
    "+", each key splits into exactly two pieces, the text before the "+"
    and the text after it, and the frame [dff] that the cell builds is indexed
    by the levels [cube_name] and [horizon_name] with one row per row of the
    loaded table, in order, carrying that row's (source, horizon) pair; in
    particular distinct keys give distinct index rows. *)
Theorem split_key_two_level_index (st : Store) (results_df : nat)
    (src : Frame) (keys : list string) (frames : nat * nat) (st' : Store) :
  heap st !! results_df = Some src ->
  well_formed src ->
  column src (LStr "cube_and_horizon") = inr (CStr <$> keys) ->
  Forall (fun key => count "+" key = 1%nat) keys ->
  cell_transform results_df st = (inr frames, st') ->
  exists (pairs : list (string * string)) (f : Frame),
    keys = composite <$> pairs
    /\ Forall (fun p => split "+" (composite p) = [p.1; p.2]) pairs
    /\ heap st' !! frames.2 = Some f
    /\ index_names f = [Some "cube_name"; Some "horizon_name"]
    /\ index f = (fun p => [CStr p.1; CStr p.2]) <$> pairs
    /\ length (index f) = length (index src)
    /\ (NoDup keys -> NoDup (index f)).
Proof.
  intros Hsrc Hwf Hkeys Hone Hrun.
  destruct (composite_split keys Hone) as (pairs & -> & Hpairs).
  destruct (apply_split_item pairs Hpairs) as [Hcube Hhorizon].
  pose proof (column_length _ _ _ Hwf Hkeys) as Hrows.
  rewrite !length_fmap in Hrows.
  unfold cell_transform in Hrun.
  apply bind_inr in Hrun as (df & s1 & Hdf & Hrun).
  apply getitem_columns_inr in Hdf as (src' & g & Hsrc' & Hg & Hs1).
  rewrite Hsrc in Hsrc'. injection Hsrc' as <-.
  unfold project in Hg. simpl in Hg. rewrite Hkeys in Hg.
  repeat match type of Hg with
         | context [column src ?l] =>
             let c := fresh "c" in
             destruct (column src l) as [?|c]; [discriminate|]
         end.
  injection Hg as <-.
  apply bind_inr in Hrun as (keys1 & s2 & Hk1 & Hrun).
  apply getitem_column_inr in Hk1 as (-> & g1 & Hg1 & Hk1).
  rewrite Hs1, lookup_insert_eq in Hg1. injection Hg1 as <-.
  unfold column in Hk1. simpl in Hk1. injection Hk1 as <-.
  apply bind_inr in Hrun as (cube_names & s3 & Hcn & Hrun).
  apply lift_inr in Hcn as [Hcn ->]. rewrite Hcube in Hcn.
  injection Hcn as <-.
  apply bind_inr in Hrun as ([] & s4 & Hset1 & Hrun).
  apply setitem_column_inr in Hset1 as (g1 & Hg1 & Hs4).
  rewrite Hs1, lookup_insert_eq in Hg1. injection Hg1 as <-.
  unfold set_column in Hs4. simpl in Hs4.
  apply bind_inr in Hrun as (keys2 & s5 & Hk2 & Hrun).
  apply getitem_column_inr in Hk2 as (-> & g2 & Hg2 & Hk2).
  rewrite Hs4 in Hg2. injection Hg2 as <-.
  unfold column in Hk2. simpl in Hk2. injection Hk2 as <-.
  apply bind_inr in Hrun as (horizon_names & s6 & Hhn & Hrun).
  apply lift_inr in Hhn as [Hhn ->]. rewrite Hhorizon in Hhn.
  injection Hhn as <-.
  apply bind_inr in Hrun as ([] & s7 & Hset2 & Hrun).
  apply setitem_column_inr in Hset2 as (g2 & Hg2 & Hs7).
  rewrite Hs4 in Hg2. injection Hg2 as <-.
  unfold set_column in Hs7. simpl in Hs7.
  apply bind_inr in Hrun as (flat & s8 & Hflat & Hrun).
  apply reset_index_of_inr in Hflat as (g3 & gflat & Hg3 & Hreset & Hs8).
  rewrite Hs7 in Hg3. injection Hg3 as <-.
  apply reset_index_inr in Hreset as (pre & Hcols & Hpre & Hlen).
  simpl in Hcols, Hpre, Hlen.
  apply bind_inr in Hrun as (indexed & s9 & Hind & Hrun).
  apply set_index_of_inr in Hind as (g4 & gind & Hg4 & Hset & Hs9).
  rewrite Hs8, lookup_insert_eq in Hg4. injection Hg4 as <-.
  destruct gflat as [fnames fidx fcols]. simpl in Hcols, Hlen. subst fcols.
  unfold set_index in Hset. simpl in Hset.
  rewrite !column_skip in Hset by (apply Hpre; set_solver).
  unfold column in Hset. simpl in Hset. injection Hset as <-.
  apply bind_inr in Hrun as (dff & s10 & Hdff & Hrun).
  apply getitem_columns_inr in Hdff as (g5 & gdff & Hg5 & Hproj & Hs10).
  rewrite Hs9, lookup_insert_eq in Hg5. injection Hg5 as <-.
  apply project_inr in Hproj as [Hidx Hnames]. simpl in Hidx, Hnames.
  injection Hrun as <- <-. simpl.
  assert (Hindex : index gdff = (fun p => [CStr p.1; CStr p.2]) <$> pairs).
  { rewrite Hidx, Hlen, <- Hrows. apply rows_of_pairs. }
  exists pairs, gdff.
  split; [reflexivity|]. split; [assumption|].
  split; [rewrite Hs10; apply lookup_insert_eq|].
  split; [assumption|]. split; [assumption|].
  split; [rewrite Hindex, length_fmap; assumption|].
  intros Hnodup. rewrite Hindex.
  apply (NoDup_fmap_2 _). apply (NoDup_fmap_1 composite). assumption.
Qed.

End KeySplit.

Lemma split_key_two_level_index_witness :
  let loaded := (Summarizer.cell_load Toy.store).2 in
  let st' := (Summarizer.cell_transform 0 loaded).2 in
  exists (pairs : list (string * string)) (f : Summarizer.Frame),
    ["M_cube+t0_J1_anon"; "M_cube+t0_B_anon"] = Summarizer.composite <$> pairs
    /\ Forall (fun p => split "+" (Summarizer.composite p) = [p.1; p.2]) pairs
    /\ Summarizer.heap st' !! 4%nat = Some f
    /\ Summarizer.index_names f = [Some "cube_name"; Some "horizon_name"]
    /\ Summarizer.index f
       = (fun p => [Summarizer.CStr p.1; Summarizer.CStr p.2]) <$> pairs
    /\ length (Summarizer.index f) = length (Summarizer.index Toy.table)
    /\ (NoDup ["M_cube+t0_J1_anon"; "M_cube+t0_B_anon"] ->
        NoDup (Summarizer.index f)).
Proof.
  intros loaded st'.
  apply (split_key_two_level_index loaded 0 Toy.table
           ["M_cube+t0_J1_anon"; "M_cube+t0_B_anon"] (1%nat, 4%nat) st').
  - vm_compute. reflexivity.
  - repeat constructor.
  - vm_compute. reflexivity.
  - repeat constructor.
  - vm_compute. reflexivity.
Defined.

(** * Further properties of the notebooks *)

(** ** Slice exporter *)

Lemma locs_below_count (E N : Z) :
  0 <= E < N -> locs E N = inl ValueError.
Proof.
  intros [HE HN]. unfold locs, floordiv.
  replace (N =? 0) with false by (symmetry; apply Z.eqb_neq; lia).
  rewrite (Z.div_small E N) by lia. reflexivity.
Qed.

(** X3.  A negative slide count is not refused: for a positive extent the
    location sequence is empty, so the axis is passed over in silence. *)
Theorem locs_negative_count_is_empty (E N : Z) :
  0 < E -> N < 0 -> locs E N = inr [].
Proof.
  intros HE HN. unfold locs, floordiv.
  replace (N =? 0) with false by (symmetry; apply Z.eqb_neq; lia).
  assert (Hs : E / N < 0).
  { pose proof (Z.div_mod E N ltac:(lia)) as Hdm.
    pose proof (Z.mod_neg_bound E N HN) as Hm. nia. }
  unfold range. replace (E / N =? 0) with false
    by (symmetry; apply Z.eqb_neq; lia).
  unfold range_len.
  replace (0 <? E / N) with false by (symmetry; apply Z.ltb_ge; lia).
  assert (Ho : E / N / 3 < 0) by (apply Z.div_lt_upper_bound; lia).
  replace (E <? E / N / 3) with false by (symmetry; apply Z.ltb_ge; lia).
  reflexivity.
Qed.

Lemma locs_negative_count_is_empty_witness : locs 100 (-5) = inr [].
Proof. apply locs_negative_count_is_empty; lia. Defined.

(** X4.  For [0 < N <= E] the locations are computed, there are at least
    [N] of them, and exactly [N] precisely when [E mod N <= (E // N) // 3];
    that is so whenever [E >= 3 * N * (N - 1)], for instance for every
    extent of 60 or more with the notebook's [N = 5]. *)
Theorem locs_length_at_least_N (E N : Z) :
  0 < N <= E ->
  exists locations,
    locs E N = inr locations
    /\ N <= Z.of_nat (length locations)
    /\ (Z.of_nat (length locations) = N <-> E mod N <= (E / N) / 3)
    /\ (3 * N * (N - 1) <= E -> Z.of_nat (length locations) = N).
Proof.
  intros HNE.
  assert (Hs : 0 < E / N) by (apply Z.div_str_pos; lia).
  assert (Hlocs : exists locations, locs E N = inr locations).
  { unfold locs, floordiv, range.
    replace (N =? 0) with false by (symmetry; apply Z.eqb_neq; lia).
    replace (E / N =? 0) with false by (symmetry; apply Z.eqb_neq; lia).
    eexists. reflexivity. }
  destruct Hlocs as [locations Hlocs]. exists locations.
  split; [assumption|].
  rewrite (locs_length _ _ _ Hlocs).
  destruct (locs_count E N HNE) as [Hge Hiff].
  split; [assumption|]. split; [assumption|].
  intros Hbig. apply Hiff.
  assert (Hr : 0 <= E mod N < N) by (apply Z.mod_pos_bound; lia).
  assert (Hq : 3 * (N - 1) <= E / N) by (apply Z.div_le_lower_bound; lia).
  assert (N - 1 <= E / N / 3) by (apply Z.div_le_lower_bound; lia).
  lia.
Qed.

Lemma locs_length_at_least_N_witness :
  exists locations,
    locs 1000 5 = inr locations
    /\ 5 <= Z.of_nat (length locations)
    /\ (Z.of_nat (length locations) = 5 <-> 1000 mod 5 <= (1000 / 5) / 3)
    /\ (3 * 5 * (5 - 1) <= 1000 -> Z.of_nat (length locations) = 5).
Proof. apply (locs_length_at_least_N 1000 5). lia. Defined.

(** Text glued in front of, or behind, two strings does not hide their
    difference. *)
Lemma string_length_app (a b : string) :
  String.length (a +:+ b) = (String.length a + String.length b)%nat.
Proof.
  induction a as [|c a IH]; [reflexivity|].
  rewrite app_String. simpl. rewrite IH. reflexivity.
Qed.

Lemma string_app_inj_r (a b t : string) : a +:+ t = b +:+ t -> a = b.
Proof.
  revert b. induction a as [|c a IH]; intros [|d b] Heq.
  - reflexivity.
  - exfalso. apply (f_equal String.length) in Heq.
    rewrite app_Empty, app_String in Heq. simpl in Heq.
    rewrite string_length_app in Heq. lia.
  - exfalso. apply (f_equal String.length) in Heq.
    rewrite app_Empty, app_String in Heq. simpl in Heq.
    rewrite string_length_app in Heq. lia.
  - rewrite !app_String in Heq. injection Heq as -> Heq.
    f_equal. apply IH. assumption.
Qed.

Lemma slide_save_path_inj (cube_dir idx : string) :
  Inj eq eq (slide_save_path cube_dir idx).
Proof.
  intros a b Heq. unfold slide_save_path, join in Heq. simpl in Heq.
  do 4 apply String.app_inj in Heq.
  apply string_app_inj_r in Heq. apply (inj pretty). assumption.
Qed.

(** X5.  The locations of an axis are pairwise distinct, and so are the files
    their slides are saved to: within an axis no slide overwrites another. *)
Theorem slide_files_distinct (E N : Z) (locations : list Z)
    (cube_dir idx : string) :
  locs E N = inr locations ->
  NoDup locations /\ NoDup (slide_save_path cube_dir idx <$> locations).
Proof.
  intros Hlocs.
  assert (Hnodup : NoDup locations).
  { apply locs_ok in Hlocs as (_ & Hs & ->).
    apply NoDup_fmap_2; [|apply NoDup_seq].
    intros a b Heq. nia. }
  split; [assumption|].
  apply NoDup_fmap_2; [apply slide_save_path_inj|assumption].
Qed.

Lemma slide_files_distinct_witness :
  NoDup [6; 26; 46; 66; 86]
  /\ NoDup (slide_save_path "cube_demo/cube_1" "INLINE_3D"
              <$> [6; 26; 46; 66; 86]).
Proof. apply (slide_files_distinct 100 5). reflexivity. Defined.

Section ExporterMore.
Context `{Seismiqb}.
Open Scope list_scope.

Lemma export_slides_log (cfg : SliceExporter.Config) (geometry : Geometry)
    (cube_dir : string) (i : nat) (idx : string) (locations : list Z)
    (s s' : Run) :
  for_each locations (SliceExporter.export_slide cfg geometry cube_dir i idx) s
  = (inr tt, s') ->
  log s' = log s ++ axis_slides (SliceExporter.SHOW cfg) cube_dir i idx locations.
Proof.
  revert s. induction locations as [|loc locations IH]; intros s Hrun.
  - injection Hrun as <-. rewrite app_nil_r. reflexivity.
  - simpl in Hrun. apply bind_inr in Hrun as ([] & s1 & Hloc & Hrun).
    unfold SliceExporter.export_slide in Hloc.
    apply call_log in Hloc as [Hloc _].
    rewrite (IH _ Hrun), Hloc, <- app_assoc. reflexivity.
Qed.

(** X1.  When the loop over one axis completes, it has requested exactly one
    slide per location of that axis, in the order of the locations, each
    saved as [cube_dir/idx-loc.png], and has made no other call. *)
Theorem export_axis_one_slide_per_location (cfg : SliceExporter.Config)
    (geometry : Geometry) (cube_dir : string) (i : nat) (idx : string)
    (s s' : Run) :
  SliceExporter.export_axis cfg geometry cube_dir (i, idx) s = (inr tt, s') ->
  exists E locations,
    lens geometry !! i = Some E
    /\ locs E (SliceExporter.N cfg) = inr locations
    /\ log s' = log s ++ axis_slides (SliceExporter.SHOW cfg) cube_dir i idx
                           locations.
Proof.
  unfold SliceExporter.export_axis. intros Hrun.
  apply bind_inr in Hrun as (E & s1 & HE & Hrun).
  apply lift_inr in HE as [HE ->].
  apply bind_inr in Hrun as (locations & s2 & Hl & Hrun).
  apply lift_inr in Hl as [Hl ->].
  unfold getitem in HE. destruct (lens geometry !! i) as [E'|]; [|discriminate].
  injection HE as ->.
  exists E, locations. split; [reflexivity|]. split; [assumption|].
  eapply export_slides_log; eassumption.
Qed.

(** X2.  An axis whose locations cannot be computed requests no slide and
    touches nothing: a missing extent raises [IndexError], an extent below
    the slide count [ValueError], and a zero slide count fails as well, with
    one of [ZeroDivisionError] and [ValueError] (the former for extents that
    are Python ints, as [lens] has them here; an extent of a numpy integer
    type divides to 0 and fails in [range] instead). *)
Theorem export_axis_failure_requests_nothing (cfg : SliceExporter.Config)
    (geometry : Geometry) (cube_dir : string) (i : nat) (idx : string)
    (s : Run) :
  (lens geometry !! i = None ->
   SliceExporter.export_axis cfg geometry cube_dir (i, idx) s
   = (inl IndexError, s))
  /\ (forall E, lens geometry !! i = Some E -> SliceExporter.N cfg = 0%Z ->
      exists e,
        (e = ZeroDivisionError \/ e = ValueError)
        /\ SliceExporter.export_axis cfg geometry cube_dir (i, idx) s
           = (inl e, s))
  /\ (forall E, lens geometry !! i = Some E ->
      (0 <= E < SliceExporter.N cfg)%Z ->
      SliceExporter.export_axis cfg geometry cube_dir (i, idx) s
      = (inl ValueError, s)).
Proof.
  unfold SliceExporter.export_axis, bind, lift, getitem.
  split; [|split].
  - intros ->. reflexivity.
  - intros E -> ->. exists ZeroDivisionError.
    split; [left; reflexivity|reflexivity].
  - intros E -> Hlt.
    rewrite (locs_below_count _ _ Hlt). reflexivity.
Qed.

(** X6.  The exporter stops at the first cube that fails: the cubes before
    it have been exported, the failure is the notebook's outcome, and no
    later cube is opened. *)
Theorem export_stops_at_first_failure (cfg : SliceExporter.Config)
    (done later : list string) (bad : string) (e : exn) (s s1 s2 : Run) :
  SliceExporter.paths cfg = done ++ bad :: later ->
  for_each done (SliceExporter.export_cube cfg) s = (inr tt, s1) ->
  SliceExporter.export_cube cfg bad s1 = (inl e, s2) ->
  SliceExporter.cell_main cfg s = (inl e, s2).
Proof.
  unfold SliceExporter.cell_main. intros -> Hdone Hbad.
  revert s Hdone. induction done as [|path done IH]; intros s Hdone.
  - injection Hdone as ->. simpl. unfold bind. rewrite Hbad. reflexivity.
  - simpl in Hdone. apply bind_inr in Hdone as ([] & s0 & Hpath & Hdone).
    simpl. unfold bind at 1. rewrite Hpath. apply IH. assumption.
Qed.

End ExporterMore.

Lemma export_axis_one_slide_per_location_witness :
  exists E locations,
    @lens Toy.toy "cube_1" !! 1%nat = Some E
    /\ locs E 5 = inr locations
    /\ log (@SliceExporter.export_axis Toy.toy
              (SliceExporter.notebook_config ["cube_1"]) "cube_1"
              "cube_demo/cube_1" (1%nat, "CROSSLINE_3D") Toy.start).2
       = (log Toy.start
          ++ @axis_slides Toy.toy false "cube_demo/cube_1" 1 "CROSSLINE_3D"
               locations)%list.
Proof.
  apply (@export_axis_one_slide_per_location Toy.toy
           (SliceExporter.notebook_config ["cube_1"]) "cube_1"
           "cube_demo/cube_1" 1 "CROSSLINE_3D" Toy.start).
  vm_compute. reflexivity.
Defined.

Lemma export_axis_failure_requests_nothing_witness :
  @SliceExporter.export_axis Toy.toy
    (SliceExporter.notebook_config ["cube_1"]) "cube_1" "cube_demo/cube_1"
    (3%nat, "DEPTH") Toy.start
  = (inl IndexError, Toy.start)
  /\ (exists e,
        (e = ZeroDivisionError \/ e = ValueError)
        /\ @SliceExporter.export_axis Toy.toy
             {| SliceExporter.paths := ["cube_1"]; SliceExporter.N := 0;
                SliceExporter.script_dir := "cube_demo";
                SliceExporter.SHOW := false |}
             "cube_1" "cube_demo/cube_1" (0%nat, "INLINE_3D") Toy.start
           = (inl e, Toy.start))
  /\ @SliceExporter.export_axis Toy.toy
       {| SliceExporter.paths := ["cube_1"]; SliceExporter.N := 200;
          SliceExporter.script_dir := "cube_demo";
          SliceExporter.SHOW := false |}
       "cube_1" "cube_demo/cube_1" (0%nat, "INLINE_3D") Toy.start
     = (inl ValueError, Toy.start).
Proof.
  split; [|split].
  - apply (@export_axis_failure_requests_nothing Toy.toy). reflexivity.
  - eapply (@export_axis_failure_requests_nothing Toy.toy); reflexivity.
  - eapply (@export_axis_failure_requests_nothing Toy.toy);
      [reflexivity|simpl; lia].
Defined.

Lemma export_stops_at_first_failure_witness :
  let cfg := {| SliceExporter.paths := ["cube_1"; "cube_2"; "cube_3"];
                SliceExporter.N := 60;
                SliceExporter.script_dir := "cube_demo";
                SliceExporter.SHOW := false |} in
  exists s2,
    @SliceExporter.cell_main Toy.toy cfg Toy.start = (inl ValueError, s2)
    /\ opened (log s2) = ["cube_1"].
Proof.
  intros cfg.
  exists (@SliceExporter.export_cube Toy.toy cfg "cube_1" Toy.start).2.
  split; [|vm_compute; reflexivity].
  apply (@export_stops_at_first_failure Toy.toy cfg [] ["cube_2"; "cube_3"]
           "cube_1" ValueError Toy.start Toy.start).
  - reflexivity.
  - reflexivity.
  - vm_compute. reflexivity.
Defined.

(** ** Metric reporter *)

Section ReporterMore.
Context `{Seismiqb}.
Open Scope list_scope.

Lemma opened_app (a b : list Event) : opened (a ++ b) = opened a ++ opened b.
Proof. apply omap_app. Qed.

(** X7.  A completed pass of the metric loop has made one evaluation, of
    that metric with its preset, saving the image as
    [cube_dir/metric_name(@preset).png]; with [SAVE_POINT_CLOUDS] on it has
    then saved the result as a point cloud under the same path without the
    extension, and with it off it has saved none. *)
Theorem evaluate_metric_events (cfg : MetricReporter.Config)
    (geometry : Geometry) (gm : GeometryMetrics) (cube_dir : string)
    (vars vars' : MetricReporter.LoopVars) (metric_name : string)
    (s s' : Run) :
  MetricReporter.evaluate_metric cfg geometry gm cube_dir vars metric_name s
  = (inr vars', s') ->
  exists metric,
    log s' = log s
      ++ EvEvaluate metric_name (MetricReporter.select_kwargs cfg metric_name)
           (MetricReporter.SHOW cfg) (MetricReporter.plot_kwargs cfg)
           (metric_save_path cfg cube_dir metric_name +:+ ".png") (inr metric)
         :: (if MetricReporter.SAVE_POINT_CLOUDS cfg
             then [EvSavePointCloud metric
                     (metric_save_path cfg cube_dir metric_name)]
             else [])
    /\ MetricReporter.computed_metrics vars'
       = MetricReporter.computed_metrics vars ++ [metric].
Proof.
  unfold MetricReporter.evaluate_metric, MetricReporter.add_prefix,
    metric_save_path.
  intros Hrun.
  apply bind_inr in Hrun as (sp & s1 & Hsp & Hrun).
  apply lift_inr in Hsp as [Hsp ->].
  apply bind_inr in Hrun as (metric & s2 & Heval & Hrun).
  apply call_log in Heval as [E2 _].
  apply bind_inr in Hrun as ([] & s3 & Hsave & Hrun).
  injection Hrun as <- <-. exists metric. split; [|reflexivity].
  destruct (MetricReporter.ADD_PREFIX cfg); injection Hsp as <-;
    destruct (MetricReporter.SAVE_POINT_CLOUDS cfg).
  - apply call_log in Hsave as [-> _]. rewrite E2, <- app_assoc. reflexivity.
  - injection Hsave as <-. rewrite E2. reflexivity.
  - apply call_log in Hsave as [-> _]. rewrite E2, <- app_assoc. reflexivity.
  - injection Hsave as <-. rewrite E2. reflexivity.
Qed.

(** One pass of the metric loop opens no cube, and when its evaluation
    raised, that exception is the outcome of the pass. *)
Lemma evaluate_metric_outcome (cfg : MetricReporter.Config)
    (geometry : Geometry) (gm : GeometryMetrics) (cube_dir : string)
    (vars : MetricReporter.LoopVars) (metric_name : string) (s : Run) r s' :
  MetricReporter.evaluate_metric cfg geometry gm cube_dir vars metric_name s
  = (r, s') ->
  exists evs,
    log s' = log s ++ evs
    /\ opened evs = []
    /\ forall name e, (name, inl e) ∈ evaluations evs -> r = inl e.
Proof.
  unfold MetricReporter.evaluate_metric, MetricReporter.add_prefix.
  intros Hrun.
  apply bind_cases in Hrun as [(e & H1 & ->)|(sp & s1 & H1 & Hrun)].
  { exfalso. unfold lift in H1.
    destruct (MetricReporter.ADD_PREFIX cfg); discriminate. }
  assert (s1 = s) as -> by (unfold lift in H1; congruence). clear H1.
  apply bind_cases in Hrun as [(e & H2 & ->)|(metric & s2 & H2 & Hrun)].
  { apply call_log in H2 as [-> _]. eexists. split; [reflexivity|].
    split; [reflexivity|]. intros name e' Hin. simpl in Hin.
    apply list_elem_of_singleton in Hin. congruence. }
  apply call_log in H2 as [E2 _].
  assert (Hno : forall tail name e,
             evaluations tail = [] ->
             (name, inl e)
             ∈ evaluations
                 (EvEvaluate metric_name
                    (MetricReporter.select_kwargs cfg metric_name)
                    (MetricReporter.SHOW cfg) (MetricReporter.plot_kwargs cfg)
                    (sp +:+ ".png") (inr metric) :: tail) -> False).
  { intros tail name e Htail Hin. simpl in Hin. rewrite Htail in Hin.
    apply list_elem_of_singleton in Hin. discriminate. }
  apply bind_cases in Hrun as [(e & H3 & ->)|([] & s3 & H3 & Hrun)].
  - destruct (MetricReporter.SAVE_POINT_CLOUDS cfg); [|discriminate].
    apply call_log in H3 as [-> _]. rewrite E2, <- app_assoc.
    eexists. split; [reflexivity|]. split; [reflexivity|].
    intros name e' Hin. exfalso. eapply Hno; [|exact Hin]. reflexivity.
  - injection Hrun as <- <-.
    destruct (MetricReporter.SAVE_POINT_CLOUDS cfg).
    + apply call_log in H3 as [-> _]. rewrite E2, <- app_assoc.
      eexists. split; [reflexivity|]. split; [reflexivity|].
      intros name e' Hin. exfalso. eapply Hno; [|exact Hin]. reflexivity.
    + injection H3 as <-. rewrite E2.
      eexists. split; [reflexivity|]. split; [reflexivity|].
      intros name e' Hin. exfalso. eapply Hno; [|exact Hin]. reflexivity.
Qed.

Lemma metric_loop_outcome (cfg : MetricReporter.Config)
    (geometry : Geometry) (gm : GeometryMetrics) (cube_dir : string)
    (names : list string) (vars : MetricReporter.LoopVars) (s : Run) r s' :
  for_fold names (MetricReporter.evaluate_metric cfg geometry gm cube_dir)
    vars s = (r, s') ->
  exists evs,
    log s' = log s ++ evs
    /\ opened evs = []
    /\ forall name e, (name, inl e) ∈ evaluations evs -> r = inl e.
Proof.
  revert vars s. induction names as [|name names IH]; intros vars s Hrun.
  - injection Hrun as <- <-. exists []. rewrite app_nil_r.
    split; [reflexivity|]. split; [reflexivity|].
    intros n e Hin. apply elem_of_nil in Hin. contradiction.
  - simpl in Hrun.
    apply bind_cases in Hrun as [(e & H1 & ->)|(vars1 & s1 & H1 & Hrun)].
    + apply evaluate_metric_outcome in H1. exact H1.
    + apply evaluate_metric_outcome in H1 as (evs1 & E1 & O1 & F1).
      apply IH in Hrun as (evs2 & E2 & O2 & F2).
      exists (evs1 ++ evs2). rewrite E2, E1, app_assoc.
      split; [reflexivity|].
      split; [rewrite opened_app, O1, O2; reflexivity|].
      intros n e Hin. rewrite evaluations_app in Hin.
      apply elem_of_app in Hin as [Hin|Hin]; [|eapply F2; eassumption].
      specialize (F1 _ _ Hin). discriminate.
Qed.

Lemma quiet_no_failed (evs : list Event) name (e : exn) :
  quiet evs -> (name, inl e) ∈ evaluations evs -> False.
Proof. intros [_ ->] Hin. apply elem_of_nil in Hin. assumption. Qed.

Lemma show_geometry_prints (show : bool) (geometry : Geometry) (s : Run) r s' :
  show_geometry show geometry s = (r, s') ->
  exists evs, log s' = log s ++ evs /\ opened evs = []
              /\ evaluations evs = [].
Proof.
  unfold show_geometry. destruct show.
  - intros Hrun.
    apply bind_cases in Hrun as [(e & H1 & _)|(a & s1 & H1 & Hrun)].
    { apply call_log in H1 as [-> _]. eexists. split; [reflexivity|].
      split; reflexivity. }
    apply bind_cases in Hrun as [(e & H2 & _)|(b & s2 & H2 & H3)].
    { apply call_log in H1 as [E1 _]. apply call_log in H2 as [-> _].
      rewrite E1, <- app_assoc. eexists. split; [reflexivity|].
      split; reflexivity. }
    apply call_log in H1 as [E1 _]. apply call_log in H2 as [E2 _].
    apply call_log in H3 as [-> _].
    rewrite E2, E1, <- !app_assoc. eexists. split; [reflexivity|].
    split; reflexivity.
  - intros [= _ <-]. exists []. rewrite app_nil_r.
    split; [reflexivity|]. split; reflexivity.
Qed.

(** The run of one cube opens that cube and no other; an evaluation that
    raised decides its outcome; and it completes only through a quality-map
    call followed by a [plt.show()] that returned. *)
Lemma report_cube_outcome (cfg : MetricReporter.Config)
    (kwargs_before : option Kwargs) (path_cube : string) (s : Run) r s' :
  MetricReporter.report_cube cfg kwargs_before path_cube s = (r, s') ->
  exists evs,
    log s' = log s ++ evs
    /\ opened evs = [path_cube]
    /\ (forall name e, (name, inl e) ∈ evaluations evs -> r = inl e)
    /\ (forall v, r = inr v ->
        (exists w, plt_show w = (inr tt, world s'))
        /\ Exists (fun ev => is_quality_map ev = true) evs).
Proof.
  unfold MetricReporter.report_cube. intros Hrun.
  apply bind_cases in Hrun as [(e & H1 & ->)|(geometry & s1 & H1 & Hrun)].
  { apply call_log in H1 as [-> _]. eexists. split; [reflexivity|].
    split; [reflexivity|]. split; [|discriminate].
    intros n e' Hin. apply elem_of_nil in Hin. contradiction. }
  apply call_log in H1 as [E1 _].
  apply bind_cases in Hrun as [(e & H2 & ->)|(gm & s2 & H2 & Hrun)].
  { apply call_log in H2 as [-> _]. rewrite E1, <- app_assoc.
    eexists. split; [reflexivity|]. split; [reflexivity|].
    split; [|discriminate].
    intros n e' Hin. apply elem_of_nil in Hin. contradiction. }
  apply call_log in H2 as [E2 _].
  apply bind_cases in Hrun as [(e & H3 & ->)|([] & s3 & H3 & Hrun)].
  { apply mkdir_exist_ok_log in H3 as ->. rewrite E2, E1, <- !app_assoc.
    eexists. split; [reflexivity|]. split; [reflexivity|].
    split; [|discriminate].
    intros n e' Hin. apply elem_of_nil in Hin. contradiction. }
  apply mkdir_exist_ok_log in H3 as E3.
  assert (Esetup : exists setup, log s3 = log s ++ setup
                     /\ opened setup = [path_cube] /\ evaluations setup = []).
  { eexists. rewrite E3, E2, E1, <- !app_assoc.
    split; [reflexivity|]. split; reflexivity. }
  clear E1 E2 E3. destruct Esetup as (setup & Esetup & Osetup & Vsetup).
  apply bind_cases in Hrun as [(e & H4 & ->)|([] & s4 & H4 & Hrun)].
  { apply show_geometry_prints in H4 as (evs & -> & Oev & Vev).
    rewrite Esetup, <- app_assoc. eexists. split; [reflexivity|].
    split; [rewrite opened_app, Osetup, Oev; reflexivity|].
    split; [|discriminate].
    intros n e' Hin. rewrite evaluations_app, Vsetup, Vev in Hin.
    apply elem_of_nil in Hin. contradiction. }
  apply show_geometry_prints in H4 as (shown & E4 & Oshown & Vshown).
  assert (Ebefore : exists before, log s4 = log s ++ before
                      /\ opened before = [path_cube]
                      /\ evaluations before = []).
  { exists (setup ++ shown). rewrite E4, Esetup, <- app_assoc.
    split; [reflexivity|].
    split; [rewrite opened_app, Osetup, Oshown; reflexivity|].
    rewrite evaluations_app, Vsetup, Vshown. reflexivity. }
  clear E4 Esetup Osetup Vsetup Oshown Vshown.
  destruct Ebefore as (before & Ebefore & Obefore & Vbefore).
  apply bind_cases in Hrun as [(e & H5 & ->)|(vars & s5 & H5 & Hrun)].
  { apply metric_loop_outcome in H5 as (evs & -> & Oev & Fev).
    rewrite Ebefore, <- app_assoc. eexists. split; [reflexivity|].
    split; [rewrite opened_app, Obefore, Oev; reflexivity|].
    split; [|discriminate].
    intros n e' Hin. rewrite evaluations_app, Vbefore in Hin.
    specialize (Fev _ _ Hin). congruence. }
  apply metric_loop_outcome in H5 as (loop & E5 & Oloop & Floop).
  assert (Eloop : exists done, log s5 = log s ++ done
                    /\ opened done = [path_cube]
                    /\ forall n (e : exn), (n, inl e) ∈ evaluations done -> False).
  { exists (before ++ loop). rewrite E5, Ebefore, <- app_assoc.
    split; [reflexivity|].
    split; [rewrite opened_app, Obefore, Oloop; reflexivity|].
    intros n e Hin. rewrite evaluations_app, Vbefore in Hin.
    specialize (Floop _ _ Hin). discriminate. }
  clear E5 Ebefore Obefore Vbefore Oloop Floop.
  destruct Eloop as (done & Edone & Odone & Fdone).
  apply bind_cases in Hrun as [(e & H6 & ->)|(save_path & s6 & H6 & Hrun)].
  { unfold lift in H6. injection H6 as _ <-.
    exists done. split; [assumption|]. split; [assumption|].
    split; [|discriminate].
    intros n e' Hin. exfalso. eapply Fdone. exact Hin. }
  unfold lift in H6. injection H6 as _ <-.
  apply bind_cases in Hrun as [(e & H7 & ->)|(qm & s7 & H7 & Hrun)].
  { apply call_log in H7 as [-> _]. rewrite Edone, <- app_assoc.
    eexists. split; [reflexivity|].
    split; [rewrite opened_app, Odone; reflexivity|].
    split; [|discriminate].
    intros n e' Hin. rewrite evaluations_app, app_nil_r in Hin.
    exfalso. eapply Fdone. exact Hin. }
  apply call_log in H7 as [E7 _].
  apply bind_cases in Hrun as [(e & H8 & ->)|([] & s8 & H8 & Hrun)].
  { apply call_log in H8 as [-> _]. rewrite E7, Edone, <- !app_assoc.
    eexists. split; [reflexivity|].
    split; [rewrite opened_app, Odone; reflexivity|].
    split; [|discriminate].
    intros n e' Hin. rewrite evaluations_app, app_nil_r in Hin.
    exfalso. eapply Fdone. exact Hin. }
  injection Hrun as <- <-. apply call_log in H8 as [E8 Hplt].
  rewrite E8, E7, Edone, <- !app_assoc.
  eexists. split; [reflexivity|].
  split; [rewrite opened_app, Odone; reflexivity|].
  split.
  - intros n e' Hin. rewrite evaluations_app, app_nil_r in Hin.
    exfalso. eapply Fdone. exact Hin.
  - intros v _. split; [eexists; exact Hplt|].
    apply Exists_app. right. apply Exists_cons_hd. reflexivity.
Qed.

Lemma no_failure_in_results (names : list string)
    (results : list MetricResult) (name : string) (e : exn) :
  (name, inl e) ∈ zip names (@inr exn MetricResult <$> results) -> False.
Proof.
  intros Hin. apply elem_of_zip_r in Hin.
  apply list_elem_of_fmap in Hin as (m & Heq & _). discriminate.
Qed.

(** X8.  On a kernel where [kwargs] is not yet bound, an empty metric list
    with [ADD_PREFIX] on never completes a cube and never evaluates its
    quality map: the file name of the quality map reads [kwargs], which only
    the metric loop binds. *)
Theorem empty_metrics_with_prefix_fail (cfg : MetricReporter.Config)
    (path_cube : string) (s : Run) r s' :
  MetricReporter.ADD_PREFIX cfg = true ->
  MetricReporter.metrics cfg = [] ->
  MetricReporter.report_cube cfg None path_cube s = (r, s') ->
  (exists e, r = inl e)
  /\ exists evs, log s' = log s ++ evs
                 /\ Forall (fun ev => is_quality_map ev = false) evs.
Proof.
  intros Hprefix Hmetrics Hrun.
  pose proof (report_cube_log _ _ _ _ _ _ Hrun) as (evs & Hlog & Hshape).
  assert (Hnone : Forall (fun ev => is_quality_map ev = false) evs).
  { destruct Hshape as [Hnone|(g & w & pre & post & results & sp & _ & _ & _
                               & _ & _ & _ & Hpath)]; [assumption|].
    rewrite Hmetrics in Hpath. unfold MetricReporter.add_prefix in Hpath.
    rewrite Hprefix in Hpath. discriminate. }
  split; [|exists evs; split; assumption].
  destruct r as [e|v]; [exists e; reflexivity|exfalso].
  apply report_cube_outcome in Hrun as (evs' & Hlog' & _ & _ & Hdone).
  destruct (Hdone v eq_refl) as [_ Hqm].
  rewrite Hlog in Hlog'. apply app_inv_head in Hlog' as <-.
  apply Exists_exists in Hqm as (ev & Hin & Hev).
  rewrite Forall_forall in Hnone. rewrite (Hnone _ Hin) in Hev. discriminate.
Qed.

(** X9.  A metric evaluation that raises ends the cube: its exception is the
    outcome of the cube's run, and no quality map is evaluated for it. *)
Theorem failed_evaluation_aborts_cube (cfg : MetricReporter.Config)
    (kwargs_before : option Kwargs) (path_cube : string) (s : Run) r s' :
  MetricReporter.report_cube cfg kwargs_before path_cube s = (r, s') ->
  exists evs,
    log s' = log s ++ evs
    /\ forall name e,
         (name, inl e) ∈ evaluations evs ->
         r = inl e /\ Forall (fun ev => is_quality_map ev = false) evs.
Proof.
  intros Hrun.
  pose proof (report_cube_log _ _ _ _ _ _ Hrun) as (evs & Hlog & Hshape).
  apply report_cube_outcome in Hrun as (evs' & Hlog' & _ & Hfail & _).
  rewrite Hlog in Hlog'. apply app_inv_head in Hlog' as <-.
  exists evs. split; [assumption|]. intros name e Hin.
  split; [eapply Hfail; eassumption|].
  destruct Hshape as [Hnone|(g & w & pre & post & results & sp & _ & -> & _
                             & Hevals & _ & [_ Hpost] & _)]; [assumption|].
  exfalso. rewrite evaluations_app in Hin. simpl in Hin.
  rewrite Hevals, Hpost, app_nil_r in Hin.
  eapply no_failure_in_results. exact Hin.
Qed.

(** X11.  When [plt.show()] raises, as it does where [plt] was never
    imported, the reporter never gets past its first cube: the run of the
    notebook's main cell fails and has opened the first cube only. *)
Theorem reporter_stops_after_first_cube (cfg : MetricReporter.Config)
    (first : string) (rest : list string) (s : Run) r s' :
  (forall w, exists e w', plt_show w = (inl e, w')) ->
  MetricReporter.paths cfg = first :: rest ->
  MetricReporter.cell_main cfg s = (r, s') ->
  (exists e, r = inl e)
  /\ exists evs, log s' = log s ++ evs /\ opened evs = [first].
Proof.
  intros Hplt Hpaths. unfold MetricReporter.cell_main. rewrite Hpaths.
  simpl. intros Hrun.
  apply bind_cases in Hrun as [(e & Hcube & ->)|(kw & s1 & Hcube & _)].
  - apply report_cube_outcome in Hcube as (evs & Hlog & Hopened & _).
    split; [exists e; reflexivity|]. exists evs. split; assumption.
  - exfalso.
    apply report_cube_outcome in Hcube as (evs & _ & _ & _ & Hdone).
    destruct (Hdone kw eq_refl) as [[w Hw] _].
    destruct (Hplt w) as (e & w' & Hraise). congruence.
Qed.

End ReporterMore.

Lemma evaluate_metric_events_witness :
  let cfg := {| MetricReporter.paths := ["cube_1"];
                MetricReporter.metrics := ["local_corrs"];
                MetricReporter.script_dir := "cube_metrics";
                MetricReporter.local_kwargs := [("kernel_size", PyInt 3)];
                MetricReporter.support_kwargs := [("supports", PyInt 20)];
                MetricReporter.plot_kwargs := [];
                MetricReporter.ADD_PREFIX := true;
                MetricReporter.SAVE_POINT_CLOUDS := true;
                MetricReporter.SHOW := false |} in
  exists metric,
    log (@MetricReporter.evaluate_metric Toy.toy cfg "cube_1" "cube_1"
           "cube_metrics/cube_1"
           (@MetricReporter.Build_LoopVars Toy.toy [] None)
           "local_corrs" Toy.start).2
    = (log Toy.start
       ++ @EvEvaluate Toy.toy "local_corrs" [("kernel_size", PyInt 3)] false []
            "cube_metrics/cube_1/local_corrs@kernel_size:3.png" (inr metric)
          :: [@EvSavePointCloud Toy.toy metric
                "cube_metrics/cube_1/local_corrs@kernel_size:3"])%list
    /\ (["local_corrs"] : list (@MetricResult Toy.toy))
       = ([] ++ [metric])%list.
Proof.
  intros cfg.
  apply (@evaluate_metric_events Toy.toy cfg "cube_1" "cube_1"
           "cube_metrics/cube_1"
           (@MetricReporter.Build_LoopVars Toy.toy [] None)
           (@MetricReporter.Build_LoopVars Toy.toy ["local_corrs"]
              (Some [("kernel_size", PyInt 3)]))
           "local_corrs" Toy.start).
  vm_compute. reflexivity.
Defined.

Lemma empty_metrics_with_prefix_fail_witness :
  let cfg := {| MetricReporter.paths := ["cube_1"];
                MetricReporter.metrics := [];
                MetricReporter.script_dir := "cube_metrics";
                MetricReporter.local_kwargs := [("kernel_size", PyInt 3)];
                MetricReporter.support_kwargs := [("supports", PyInt 20)];
                MetricReporter.plot_kwargs := [];
                MetricReporter.ADD_PREFIX := true;
                MetricReporter.SAVE_POINT_CLOUDS := false;
                MetricReporter.SHOW := false |} in
  let run := @MetricReporter.report_cube Toy.toy cfg None "cube_1" Toy.start in
  run.1 = inl NameError
  /\ (exists e, run.1 = inl e)
  /\ exists evs, log run.2 = (log Toy.start ++ evs)%list
                 /\ Forall (fun ev => is_quality_map ev = false) evs.
Proof.
  intros cfg run. split; [vm_compute; reflexivity|].
  apply (@empty_metrics_with_prefix_fail Toy.toy cfg "cube_1" Toy.start).
  - reflexivity.
  - reflexivity.
  - vm_compute. reflexivity.
Defined.

Lemma failed_evaluation_aborts_cube_witness :
  let cfg := {| MetricReporter.paths := ["cube_1"];
                MetricReporter.metrics := ["support_corrs"; "broken"; "local_corrs"];
                MetricReporter.script_dir := "cube_metrics";
                MetricReporter.local_kwargs := [("kernel_size", PyInt 3)];
                MetricReporter.support_kwargs := [("supports", PyInt 20)];
                MetricReporter.plot_kwargs := [];
                MetricReporter.ADD_PREFIX := true;
                MetricReporter.SAVE_POINT_CLOUDS := false;
                MetricReporter.SHOW := false |} in
  let run := @MetricReporter.report_cube ToyFaulty.toy cfg None "cube_1"
               ToyFaulty.start in
  run.1 = inl (OtherError "unknown metric")
  /\ Forall (fun ev => is_quality_map ev = false) (log run.2).
Proof.
  intros cfg run.
  destruct (@failed_evaluation_aborts_cube ToyFaulty.toy cfg None "cube_1"
              ToyFaulty.start run.1 run.2) as (evs & Hlog & Hfail);
    [vm_compute; reflexivity|].
  destruct (Hfail "broken" (OtherError "unknown metric")) as [Hr Hq].
  - assert (evs = log run.2) as -> by (rewrite Hlog; reflexivity).
    vm_compute. apply list_elem_of_further, list_elem_of_here.
  - split; [exact Hr|]. rewrite Hlog. exact Hq.
Defined.

Lemma reporter_stops_after_first_cube_witness :
  let run := @MetricReporter.cell_main ToyFaulty.toy
               (MetricReporter.notebook_config ["cube_1"; "cube_2"])
               ToyFaulty.start in
  (exists e, run.1 = inl e)
  /\ exists evs, log run.2 = (log ToyFaulty.start ++ evs)%list
                 /\ opened evs = ["cube_1"].
Proof.
  intros run.
  apply (@reporter_stops_after_first_cube ToyFaulty.toy
           (MetricReporter.notebook_config ["cube_1"; "cube_2"])
           "cube_1" ["cube_2"] ToyFaulty.start).
  - intros w. exists NameError, w. reflexivity.
  - reflexivity.
  - vm_compute. reflexivity.
Defined.

(** ** Metric reporter: the quality map *)

Section QualityMap.
Context `{Seismiqb}.
Open Scope list_scope.





End QualityMap.



(** The notebook's own settings, run on one cube of the small world: the
    quality map is saved under the support preset of the last metric. *)
Example quality_map_file_of_notebook :
  @EvQualityMap Toy.toy [0.1%Q] PyNone ["support_hellinger"; "support_corrs"] true
    [("cmap", PyStr "Reds"); ("figsize", PyIntTuple [15; 15])]
    "cube_metrics/cube_1/quality_map@agg:mean|supports:20.png"
  ∈ log (@MetricReporter.report_cube Toy.toy
           (MetricReporter.notebook_config ["cube_1"]) None "cube_1"
           Toy.start).2.
Proof. vm_compute. repeat constructor. Qed.


(** ** Parameter suffixes of different presets *)

Section SuffixCollisions.
Open Scope list_scope.

Lemma entry_encoding_inj (a b : string * PyVal) :
  plain_entry a -> plain_entry b ->
  a.1 +:+ ":" +:+ py_str a.2 = b.1 +:+ ":" +:+ py_str b.2 ->
  (a.1, py_str a.2) = (b.1, py_str b.2).
Proof.
  intros [Ha _] [Hb _] Heq.
  pose proof (f_equal (split ":") Heq) as Hsplit.
  change (a.1 +:+ ":" +:+ py_str a.2)
    with (a.1 +:+ String ":" (py_str a.2)) in Hsplit.
  change (b.1 +:+ ":" +:+ py_str b.2)
    with (b.1 +:+ String ":" (py_str b.2)) in Hsplit.
  rewrite !split_app in Hsplit by assumption.
  injection Hsplit as Hkey _. rewrite Hkey in Heq.
  apply String.app_inj in Heq. apply String.app_inj in Heq.
  rewrite Hkey, Heq. reflexivity.
Qed.

Lemma entry_encodings_inj (kw1 kw2 : Kwargs) :
  Forall plain_entry kw1 -> Forall plain_entry kw2 ->
  (fun item : string * PyVal => item.1 +:+ ":" +:+ py_str item.2) <$> kw1
  = (fun item : string * PyVal => item.1 +:+ ":" +:+ py_str item.2) <$> kw2 ->
  (fun item : string * PyVal => (item.1, py_str item.2)) <$> kw1
  = (fun item : string * PyVal => (item.1, py_str item.2)) <$> kw2.
Proof.
  intros H1. revert kw2. induction H1 as [|a kw1 Ha _ IH];
    intros [|b kw2] H2 Heq; try discriminate; [reflexivity|].
  apply Forall_cons in H2 as [Hb H2].
  change ((a.1 +:+ ":" +:+ py_str a.2)
            :: ((fun item : string * PyVal => item.1 +:+ ":" +:+ py_str item.2)
                  <$> kw1)
          = (b.1 +:+ ":" +:+ py_str b.2)
              :: ((fun item : string * PyVal =>
                     item.1 +:+ ":" +:+ py_str item.2) <$> kw2)) in Heq.
  injection Heq as Hhead Htail.
  change ((a.1, py_str a.2)
            :: ((fun item : string * PyVal => (item.1, py_str item.2)) <$> kw1)
          = (b.1, py_str b.2)
              :: ((fun item : string * PyVal => (item.1, py_str item.2))
                    <$> kw2)).
  rewrite (entry_encoding_inj a b Ha Hb Hhead), (IH kw2 H2 Htail).
  reflexivity.
Qed.

Lemma suffix_pieces (kwargs : Kwargs) :
  Forall plain_entry kwargs ->
  split "|" (MetricReporter.param_suffix kwargs)
  = match kwargs with
    | [] => [""%string]
    | _ => (fun item : string * PyVal => item.1 +:+ ":" +:+ py_str item.2)
             <$> kwargs
    end.
Proof.
  intros Hplain. destruct kwargs as [|item kwargs]; [reflexivity|].
  change (MetricReporter.param_suffix (item :: kwargs))
    with (join "|"
            ((fun item : string * PyVal => item.1 +:+ ":" +:+ py_str item.2)
               <$> item :: kwargs)).
  apply split_join; [discriminate|].
  apply Forall_fmap. eapply Forall_impl; [exact Hplain|].
  intros x [_ Hx]. exact Hx.
Qed.

Lemma entry_encoding_not_empty (item : string * PyVal) :
  item.1 +:+ ":" +:+ py_str item.2 <> ""%string.
Proof.
  destruct item as [[|c key] value]; simpl.
  - rewrite app_Empty. discriminate.
  - rewrite app_String. discriminate.
Qed.

(** X10.  Two parameter dictionaries with the same suffix have the same keys
    with the same printed values, in the same order, provided no key holds
    ":" and no entry holds "|": file names of different parameter choices do
    not collide, up to values that print alike. *)
Theorem param_suffix_no_collision (kw1 kw2 : Kwargs) :
  Forall plain_entry kw1 -> Forall plain_entry kw2 ->
  MetricReporter.param_suffix kw1 = MetricReporter.param_suffix kw2 ->
  (fun item : string * PyVal => (item.1, py_str item.2)) <$> kw1
  = (fun item : string * PyVal => (item.1, py_str item.2)) <$> kw2.
Proof.
  intros H1 H2 Heq.
  pose proof (f_equal (split "|") Heq) as Hpieces.
  rewrite (suffix_pieces kw1 H1), (suffix_pieces kw2 H2) in Hpieces.
  destruct kw1 as [|a kw1], kw2 as [|b kw2].
  - reflexivity.
  - exfalso. rewrite fmap_cons in Hpieces. injection Hpieces as Hhead _.
    symmetry in Hhead. exact (entry_encoding_not_empty b Hhead).
  - exfalso. rewrite fmap_cons in Hpieces. injection Hpieces as Hhead _.
    exact (entry_encoding_not_empty a Hhead).
  - apply entry_encodings_inj; assumption.
Qed.

End SuffixCollisions.

Lemma param_suffix_no_collision_witness :
  (fun item : string * PyVal => (item.1, py_str item.2))
    <$> [("supports", PyInt 20)]
  = (fun item : string * PyVal => (item.1, py_str item.2))
      <$> [("supports", PyStr "20")].
Proof.
  apply param_suffix_no_collision.
  - repeat constructor.
  - repeat constructor.
  - reflexivity.
Defined.

(** ** Summarizer: keys, columns and labels *)

(** Membership in a list written out, and its negation. *)
Ltac in_list := repeat first [apply list_elem_of_here | apply list_elem_of_further].
Ltac not_in_list :=
  let Hin := fresh "Hin" in
  intros Hin; simpl in Hin;
  repeat (apply elem_of_cons in Hin as [Hin|Hin]; [discriminate|]);
  apply elem_of_nil in Hin; exact Hin.

Section SummarizerMore.
Import Summarizer.
Open Scope list_scope.

Lemma bind_run {St A B} (m : M St A) (k : A -> M St B) s a s1 :
  m s = (inr a, s1) -> bind m k s = k a s1.
Proof. unfold bind. intros ->. reflexivity. Qed.

Lemma bind_fail {St A B} (m : M St A) (k : A -> M St B) s e s1 :
  m s = (inl e, s1) -> bind m k s = (inl e, s1).
Proof. unfold bind. intros ->. reflexivity. Qed.

(** X13.  Only the first two pieces of a composite key are used: of a key
    [a+b+rest] the cube name is [a] and the horizon name is [b], whatever
    follows the second "+". *)
Theorem extra_delimiters_are_dropped (a b rest : string) :
  count "+" a = 0%nat -> count "+" b = 0%nat ->
  split_item 0 (CStr (a +:+ "+" +:+ b +:+ "+" +:+ rest)) = inr (CStr a)
  /\ split_item 1 (CStr (a +:+ "+" +:+ b +:+ "+" +:+ rest)) = inr (CStr b).
Proof.
  intros Ha Hb. unfold split_item, getitem.
  change (a +:+ "+" +:+ b +:+ "+" +:+ rest)
    with (a +:+ String "+" (b +:+ String "+" rest)).
  rewrite !split_app by assumption. split; reflexivity.
Qed.

Lemma extra_delimiters_are_dropped_witness :
  split_item 0 (CStr ("M_cube" +:+ "+" +:+ "t0_B" +:+ "+" +:+ "anon+v2"))
  = inr (CStr "M_cube")
  /\ split_item 1 (CStr ("M_cube" +:+ "+" +:+ "t0_B" +:+ "+" +:+ "anon+v2"))
     = inr (CStr "t0_B").
Proof. apply extra_delimiters_are_dropped; reflexivity. Defined.

(** *** Columns of a projection *)

Lemma column_missing (f : Frame) (label : Label) :
  label ∉ (columns f).*1 -> column f label = inl KeyError.
Proof.
  unfold column. intros Hmiss.
  destruct (list_find _ (columns f)) as [[i [l c]]|] eqn:Hfind; [|reflexivity].
  exfalso. apply list_find_Some in Hfind as (Hi & Hl & _). simpl in Hl.
  apply Hmiss. apply list_elem_of_fmap. exists (l, c).
  split; [symmetry; exact Hl|]. eapply list_elem_of_lookup_2. exact Hi.
Qed.

Lemma column_error (f : Frame) (label : Label) (e : exn) :
  column f label = inl e -> e = KeyError.
Proof.
  unfold column. destruct (list_find _ (columns f)) as [[i [l c]]|];
    [discriminate|]. intros [= <-]. reflexivity.
Qed.

Lemma select_columns_missing (f : Frame) (labels : list Label)
    (label : Label) :
  label ∈ labels -> label ∉ (columns f).*1 ->
  select_columns f labels = inl KeyError.
Proof.
  intros Hin Hmiss. induction labels as [|l labels IH].
  - apply elem_of_nil in Hin. contradiction.
  - simpl. destruct (column f l) as [e|cells] eqn:Hcol.
    + rewrite (column_error _ _ _ Hcol). reflexivity.
    + apply elem_of_cons in Hin as [->|Hin].
      * rewrite (column_missing _ _ Hmiss) in Hcol. discriminate.
      * rewrite (IH Hin). reflexivity.
Qed.

Lemma select_columns_labels (f : Frame) (labels : list Label) cols :
  select_columns f labels = inr cols -> cols.*1 = labels.
Proof.
  revert cols. induction labels as [|l labels IH]; intros cols.
  - intros [= <-]. reflexivity.
  - simpl. destruct (column f l); [discriminate|].
    destruct (select_columns f labels) as [|rest]; [discriminate|].
    intros [= <-]. rewrite fmap_cons, (IH rest eq_refl). reflexivity.
Qed.

(** X14.  When the loaded table lacks one of the six columns the cell reads,
    the cell raises [KeyError] at once: no frame is created or changed. *)
Theorem missing_column_raises_KeyError (st : Store) (results_df : nat)
    (src : Frame) (label : string) :
  heap st !! results_df = Some src ->
  label ∈ metric_columns ++ ["cube_and_horizon"; "repetition"] ->
  LStr label ∉ (columns src).*1 ->
  cell_transform results_df st = (inl KeyError, st).
Proof.
  intros Hsrc Hin Hmiss. unfold cell_transform.
  apply bind_fail. unfold getitem_columns.
  rewrite (bind_run _ _ st src st) by (unfold deref; rewrite Hsrc; reflexivity).
  apply bind_fail. unfold lift, project.
  rewrite (select_columns_missing src _ (LStr label)); [reflexivity| |assumption].
  apply list_elem_of_fmap. exists label. split; [reflexivity|assumption].
Qed.

Lemma missing_column_raises_KeyError_witness :
  let bare := {| index_names := [None]; index := [[CInt 0]];
                 columns := [(LStr "coverages", [CList [0.5%Q]]);
                             (LStr "cube_and_horizon", [CStr "M+h"])] |} in
  let st := {| disk := ∅; heap := {[ 0%nat := bare ]}; shown := [] |} in
  cell_transform 0 st = (inl KeyError, st).
Proof.
  intros bare st.
  apply (missing_column_raises_KeyError st 0 bare "corrs").
  - reflexivity.
  - unfold metric_columns. simpl. in_list.
  - not_in_list.
Defined.

Lemma column_cons (names : list (option string)) (idx : list (list Cell))
    (l0 : Label) (c0 : list Cell) (cols : list (Label * list Cell))
    (label : Label) :
  column {| index_names := names; index := idx; columns := (l0, c0) :: cols |}
    label
  = if decide (l0 = label) then inr c0
    else column {| index_names := names; index := idx; columns := cols |} label.
Proof.
  unfold column. simpl. destruct (decide (l0 = label)); [reflexivity|].
  destruct (list_find _ cols) as [[i [l c]]|]; reflexivity.
Qed.

Lemma column_present (f : Frame) (label : Label) :
  label ∈ (columns f).*1 -> exists cells, column f label = inr cells.
Proof.
  destruct f as [names idx cols]. simpl.
  induction cols as [|[l0 c0] cols IH]; intros Hin.
  - apply elem_of_nil in Hin. contradiction.
  - rewrite column_cons. destruct (decide (l0 = label)); [eauto|].
    apply IH. rewrite fmap_cons in Hin.
    apply elem_of_cons in Hin as [Heq|Hin]; [|assumption].
    simpl in Heq. congruence.
Qed.

Lemma select_columns_present (f : Frame) (labels : list Label) :
  (forall l, l ∈ labels -> l ∈ (columns f).*1) ->
  exists cols, select_columns f labels = inr cols.
Proof.
  induction labels as [|l labels IH]; intros Hall; [eexists; reflexivity|].
  destruct (column_present f l) as [cells Hcells];
    [apply Hall, list_elem_of_here|].
  destruct IH as [cols Hcols];
    [intros l' Hl'; apply Hall, list_elem_of_further, Hl'|].
  simpl. rewrite Hcells, Hcols. eexists. reflexivity.
Qed.

(** A projection holds, under each of its labels, the column of that label. *)
Lemma project_column (f g : Frame) (labels : list Label) (label : Label) :
  project f labels = inr g -> label ∈ labels ->
  column g label = column f label.
Proof.
  unfold project. destruct (select_columns f labels) as [|cols] eqn:Hsel;
    [discriminate|].
  intros [= <-] Hin. revert cols Hsel.
  induction labels as [|l0 labels IH]; intros cols Hsel.
  - apply elem_of_nil in Hin. contradiction.
  - simpl in Hsel. destruct (column f l0) as [|c0] eqn:Hc0; [discriminate|].
    destruct (select_columns f labels) as [|rest]; [discriminate|].
    injection Hsel as <-. rewrite column_cons.
    destruct (decide (l0 = label)) as [<-|Hne]; [symmetry; exact Hc0|].
    apply elem_of_cons in Hin as [Heq|Hin]; [congruence|].
    apply IH; [assumption|reflexivity].
Qed.

(** Assigning a column leaves the columns under other labels as they were. *)
Lemma column_set_column_ne (f : Frame) (label other : Label)
    (cells : list Cell) :
  other <> label ->
  column (set_column f label cells) other = column f other.
Proof.
  intros Hne. destruct f as [names idx cols]. unfold set_column. simpl.
  destruct (decide (label ∈ cols.*1)) as [_|_].
  - induction cols as [|[l0 c0] cols IH]; [reflexivity|].
    rewrite fmap_cons. simpl. destruct (decide (l0 = label)) as [->|Hl0].
    + rewrite !column_cons.
      destruct (decide (label = other)); [congruence|]. exact IH.
    + rewrite !column_cons. destruct (decide (l0 = other)); [reflexivity|].
      exact IH.
  - induction cols as [|[l0 c0] cols IH].
    + simpl. rewrite column_cons.
      destruct (decide (label = other)); [congruence|reflexivity].
    + simpl. rewrite !column_cons. destruct (decide (l0 = other));
        [reflexivity|]. exact IH.
Qed.

(** The first piece of a string key always exists; the second exists only
    when the key holds a "+". *)
Lemma apply_first_piece (keys : list string) :
  exists firsts, apply_cells (split_item 0) (CStr <$> keys) = inr firsts.
Proof.
  induction keys as [|key keys [firsts IH]]; [eexists; reflexivity|].
  rewrite fmap_cons. cbn [apply_cells split_item]. unfold getitem.
  destruct (split "+" key) as [|piece pieces] eqn:Hsplit;
    [exfalso; exact (split_not_nil _ _ Hsplit)|].
  simpl. rewrite IH. eexists. reflexivity.
Qed.

Lemma apply_second_piece_missing (keys : list string) :
  Exists (fun key => count "+" key = 0%nat) keys ->
  apply_cells (split_item 1) (CStr <$> keys) = inl IndexError.
Proof.
  assert (Hitem : forall key, split_item 1 (CStr key) = inl IndexError
                              \/ exists c, split_item 1 (CStr key) = inr c).
  { intros key. unfold split_item, getitem.
    destruct (split "+" key !! 1%nat); [right; eauto|left; reflexivity]. }
  induction 1 as [key keys Hkey|key keys _ IH];
    rewrite fmap_cons; cbn [apply_cells].
  - unfold split_item, getitem. rewrite (split_without_sep _ _ Hkey).
    reflexivity.
  - destruct (Hitem key) as [->|[c ->]]; [reflexivity|].
    rewrite IH. reflexivity.
Qed.

(** X12.  When the six columns are there and some composite key holds no
    "+", the cell raises [IndexError]: the cube names are computed, the
    horizon names are not.  The loaded table and the persisted results are as
    they were. *)
Theorem key_without_delimiter_raises_IndexError (st : Store)
    (results_df : nat) (src : Frame) (keys : list string) :
  heap st !! results_df = Some src ->
  (forall label,
     label ∈ metric_columns ++ ["cube_and_horizon"; "repetition"] ->
     LStr label ∈ (columns src).*1) ->
  column src (LStr "cube_and_horizon") = inr (CStr <$> keys) ->
  Exists (fun key => count "+" key = 0%nat) keys ->
  exists st',
    cell_transform results_df st = (inl IndexError, st')
    /\ heap st' !! results_df = Some src
    /\ disk st' = disk st.
Proof.
  intros Hsrc Hcols Hkeys Hbad.
  destruct (select_columns_present src
              (LStr <$> metric_columns ++ ["cube_and_horizon"; "repetition"]))
    as [cols Hsel].
  { intros l Hl. apply list_elem_of_fmap in Hl as (label & -> & Hl).
    apply Hcols, Hl. }
  set (g := {| index_names := index_names src; index := index src;
               columns := cols |}).
  assert (Hproj : project src
                    (LStr <$> metric_columns ++ ["cube_and_horizon"; "repetition"])
                  = inr g) by (unfold project; rewrite Hsel; reflexivity).
  assert (Hgkeys : column g (LStr "cube_and_horizon") = inr (CStr <$> keys)).
  { rewrite (project_column _ _ _ _ Hproj); [exact Hkeys|].
    unfold metric_columns. simpl. in_list. }
  destruct (apply_first_piece keys) as [firsts Hfirsts].
  pose proof (apply_second_piece_missing keys Hbad) as Hseconds.
  set (df := fresh (dom (heap st))).
  set (s1 := {| disk := disk st; heap := <[df := g]> (heap st);
                shown := shown st |}).
  set (s2 := {| disk := disk s1;
                heap := alter (fun f => set_column f (LStr "cube_name") firsts)
                          df (heap s1);
                shown := shown s1 |}).
  assert (Hrun : cell_transform results_df st = (inl IndexError, s2)).
  { unfold cell_transform.
    rewrite (bind_run _ _ st df s1).
    2:{ unfold getitem_columns.
        rewrite (bind_run _ _ st src st)
          by (unfold deref; rewrite Hsrc; reflexivity).
        rewrite (bind_run _ _ st g st) by (unfold lift; rewrite Hproj; reflexivity).
        reflexivity. }
    rewrite (bind_run _ _ s1 (CStr <$> keys) s1).
    2:{ unfold getitem_column.
        rewrite (bind_run _ _ s1 g s1)
          by (unfold deref; simpl; rewrite lookup_insert_eq; reflexivity).
        unfold lift. rewrite Hgkeys. reflexivity. }
    rewrite (bind_run _ _ s1 firsts s1)
      by (unfold lift; rewrite Hfirsts; reflexivity).
    rewrite (bind_run _ _ s1 tt s2).
    2:{ unfold setitem_column.
        rewrite (bind_run _ _ s1 g s1)
          by (unfold deref; simpl; rewrite lookup_insert_eq; reflexivity).
        reflexivity. }
    rewrite (bind_run _ _ s2 (CStr <$> keys) s2).
    2:{ unfold getitem_column.
        rewrite (bind_run _ _ s2 (set_column g (LStr "cube_name") firsts) s2).
        2:{ unfold deref. simpl. rewrite lookup_alter_eq, lookup_insert_eq.
            reflexivity. }
        unfold lift. rewrite column_set_column_ne by discriminate.
        rewrite Hgkeys. reflexivity. }
    apply bind_fail. unfold lift. rewrite Hseconds. reflexivity. }
  exists s2. split; [exact Hrun|].
  assert (Hdom : ({[results_df]} : gset nat) ⊆ dom (heap st)).
  { apply singleton_subseteq_l, elem_of_dom. eauto. }
  destruct (keeps_cell_transform {[results_df]} results_df st _ _ Hdom Hrun)
    as [(Hdisk & _ & Hkept) _].
  split; [|exact Hdisk].
  rewrite Hkept by (apply elem_of_singleton; reflexivity). exact Hsrc.
Qed.

Lemma key_without_delimiter_raises_IndexError_witness :
  let keyless :=
    {| index_names := [None]; index := [[CInt 0]; [CInt 1]];
       columns := [(LStr "coverages", [CList [0.5%Q]; CList [0.7%Q]]);
                   (LStr "window_rates", [CList [0.5%Q]; CList [0.7%Q]]);
                   (LStr "corrs", [CList [0.5%Q]; CList [0.7%Q]]);
                   (LStr "local_corrs", [CList [0.5%Q]; CList [0.7%Q]]);
                   (LStr "cube_and_horizon", [CStr "M_cube+t0"; CStr "M_cube"]);
                   (LStr "repetition", [CInt 0; CInt 0])] |} in
  let st := {| disk := ∅; heap := {[ 0%nat := keyless ]}; shown := [] |} in
  exists st',
    cell_transform 0 st = (inl IndexError, st')
    /\ heap st' !! 0%nat = Some keyless
    /\ disk st' = disk st.
Proof.
  intros keyless st.
  apply (key_without_delimiter_raises_IndexError st 0 keyless
           ["M_cube+t0"; "M_cube"]).
  - reflexivity.
  - intros label Hlabel. unfold metric_columns in Hlabel. simpl in Hlabel.
    repeat (apply elem_of_cons in Hlabel as [->|Hlabel]; [simpl; in_list|]).
    apply elem_of_nil in Hlabel. contradiction.
  - reflexivity.
  - apply Exists_cons_tl, Exists_cons_hd. reflexivity.
Defined.

(** The label a column of the expanded frame gets from the renaming
    [{i : f'{stem}_{i}' for i in range(3)}]. *)
Lemma iteration_label (stem : string) (j : nat) (cells : list Cell) :
  (match list_find (fun m : Label * Label => m.1 = LInt (Z.of_nat j))
           (iteration_names stem) with
   | Some (_, (_, new)) => (new, cells)
   | None => (LInt (Z.of_nat j), cells)
   end).1
  = if (j <? 3)%nat then LStr (stem +:+ "_" +:+ pretty (Z.of_nat j))
    else LInt (Z.of_nat j).
Proof.
  unfold iteration_names.
  destruct (list_find _ _) as [[i [old new]]|] eqn:Hfind.
  - apply list_find_Some in Hfind as (Hi & Hold & _). simpl in Hold.
    rewrite list_lookup_fmap in Hi.
    destruct (seq 0 3 !! i) as [k|] eqn:Hk; [|discriminate].
    apply lookup_seq in Hk as [-> Hlt]. injection Hi as <- <-.
    injection Hold as Hij. apply Nat2Z.inj in Hij. subst j.
    simpl. replace (i <? 3)%nat with true
      by (symmetry; apply Nat.ltb_lt; assumption).
    reflexivity.
  - apply list_find_None in Hfind. rewrite Forall_fmap, Forall_forall in Hfind.
    destruct (Nat.ltb_spec j 3) as [Hlt|Hge]; [|reflexivity].
    exfalso. apply (Hfind j); [apply elem_of_seq; lia|reflexivity].
Qed.

Lemma rename_expand_labels (f : Frame) (cells : list Cell) (stem : string) :
  (columns (rename (expand f cells) (iteration_names stem))).*1
  = (fun j : nat =>
       if (j <? 3)%nat then LStr (stem +:+ "_" +:+ pretty (Z.of_nat j))
       else LInt (Z.of_nat j))
      <$> seq 0 (foldr Nat.max 0%nat (length <$> (series_of <$> cells))).
Proof.
  unfold rename, expand. simpl. rewrite <- !list_fmap_compose.
  apply list_fmap_ext. intros _ j _. simpl. apply iteration_label.
Qed.

(** X15.  The per-iteration frame of a column has the index of the frame it
    was made from and one column per position of the longest sequence; the
    first three are named [stem_0], [stem_1], [stem_2], and any further ones
    keep their integer labels [3], [4], ... since the renaming covers
    [range(3)] only. *)
Theorem per_iteration_labels (ref : nat) (label stem : string)
    (st : Store) (r : nat) (st' : Store) :
  per_iteration ref label stem st = (inr r, st') ->
  exists f cells g,
    heap st !! ref = Some f
    /\ column f (LStr label) = inr cells
    /\ heap st' !! r = Some g
    /\ index g = index f
    /\ (columns g).*1
       = (fun j : nat =>
            if (j <? 3)%nat then LStr (stem +:+ "_" +:+ pretty (Z.of_nat j))
            else LInt (Z.of_nat j))
           <$> seq 0 (foldr Nat.max 0%nat (length <$> (series_of <$> cells))).
Proof.
  unfold per_iteration. intros Hrun.
  apply bind_inr in Hrun as (f & s1 & Hf & Hrun).
  apply deref_inr in Hf as [-> Hf].
  apply bind_inr in Hrun as (cells & s2 & Hcells & Hrun).
  apply lift_inr in Hcells as [Hcells ->].
  destruct cells as [|cell cells]; [discriminate|].
  revert Hcells Hrun. generalize (cell :: cells). clear cell cells.
  intros cells Hcells Hrun.
  apply bind_inr in Hrun as (wide & s3 & Hwide & Hrun).
  injection Hwide as <- <-.
  apply bind_inr in Hrun as (w & s4 & Hw & Hrun).
  apply deref_inr in Hw as [-> Hw]. simpl in Hw.
  rewrite lookup_insert_eq in Hw. injection Hw as <-.
  injection Hrun as <- <-. simpl.
  exists f, cells, (rename (expand f cells) (iteration_names stem)).
  split; [assumption|]. split; [assumption|].
  split; [apply lookup_insert_eq|]. split; [reflexivity|].
  apply rename_expand_labels.
Qed.

Lemma per_iteration_labels_witness :
  let five := {| index_names := [Some "cube_name"; Some "horizon_name"];
                 index := [[CStr "M_cube"; CStr "t0_B_anon"]];
                 columns :=
                   [(LStr "coverages",
                     [CList [0.1%Q; 0.2%Q; 0.3%Q; 0.4%Q; 0.5%Q]])] |} in
  let st := {| disk := ∅; heap := {[ 0%nat := five ]}; shown := [] |} in
  exists f cells g,
    heap st !! 0%nat = Some f
    /\ column f (LStr "coverages") = inr cells
    /\ heap (per_iteration 0 "coverages" "coverage" st).2 !! 2%nat = Some g
    /\ index g = index f
    /\ (columns g).*1
       = (fun j : nat =>
            if (j <? 3)%nat
            then LStr ("coverage" +:+ "_" +:+ pretty (Z.of_nat j))
            else LInt (Z.of_nat j))
           <$> seq 0 (foldr Nat.max 0%nat (length <$> (series_of <$> cells))).
Proof.
  intros five st.
  apply (per_iteration_labels 0 "coverages" "coverage" st 2).
  vm_compute. reflexivity.
Defined.

(** With five iterations the last two columns are labelled [3] and [4]. *)
Example per_iteration_five_steps :
  (columns (rename (expand {| index_names := []; index := [[]]; columns := [] |}
                      [CList [0.1%Q; 0.2%Q; 0.3%Q; 0.4%Q; 0.5%Q]])
              (iteration_names "coverage"))).*1
  = [LStr "coverage_0"; LStr "coverage_1"; LStr "coverage_2"; LInt 3; LInt 4].
Proof. vm_compute. reflexivity. Qed.

(** X17.  When the transforming cell completes, [dff] holds exactly the four
    metric columns, in the order of [columns], under an index whose levels
    are named [cube_name] and [horizon_name]; the key and repetition columns
    are not in it. *)
Theorem dff_has_metric_columns (st : Store) (results_df : nat)
    (frames : nat * nat) (st' : Store) :
  cell_transform results_df st = (inr frames, st') ->
  exists f,
    heap st' !! frames.2 = Some f
    /\ (columns f).*1 = LStr <$> metric_columns
    /\ index_names f = [Some "cube_name"; Some "horizon_name"].
Proof.
  unfold cell_transform. intros Hrun.
  apply bind_inr in Hrun as (df & s1 & _ & Hrun).
  apply bind_inr in Hrun as (k1 & s2 & _ & Hrun).
  apply bind_inr in Hrun as (cn & s3 & _ & Hrun).
  apply bind_inr in Hrun as ([] & s4 & _ & Hrun).
  apply bind_inr in Hrun as (k2 & s5 & _ & Hrun).
  apply bind_inr in Hrun as (hn & s6 & _ & Hrun).
  apply bind_inr in Hrun as ([] & s7 & _ & Hrun).
  apply bind_inr in Hrun as (flat & s8 & _ & Hrun).
  apply bind_inr in Hrun as (indexed & s9 & Hind & Hrun).
  apply bind_inr in Hrun as (dff & s10 & Hdff & Hrun).
  injection Hrun as <- <-. simpl.
  apply set_index_of_inr in Hind as (gflat & gind & _ & Hset & Hs9).
  apply getitem_columns_inr in Hdff as (g & f & Hg & Hproj & Hs10).
  rewrite Hs9, lookup_insert_eq in Hg. injection Hg as <-.
  exists f. split; [rewrite Hs10; apply lookup_insert_eq|].
  pose proof (project_inr _ _ _ Hproj) as [_ Hnames].
  unfold project in Hproj.
  destruct (select_columns gind _) as [|cols] eqn:Hsel; [discriminate|].
  injection Hproj as <-.
  split; [exact (select_columns_labels _ _ _ Hsel)|].
  simpl in Hnames |- *. unfold set_index in Hset.
  destruct (select_columns gflat _); [discriminate|].
  injection Hset as <-. reflexivity.
Qed.

Lemma dff_has_metric_columns_witness :
  let loaded := (cell_load Toy.store).2 in
  exists f,
    heap (cell_transform 0 loaded).2 !! 4%nat = Some f
    /\ (columns f).*1 = LStr <$> metric_columns
    /\ index_names f = [Some "cube_name"; Some "horizon_name"].
Proof.
  intros loaded.
  apply (dff_has_metric_columns loaded 0 (1%nat, 4%nat)).
  vm_compute. reflexivity.
Defined.

End SummarizerMore.

(** ** Slice exporter: the record of one cube *)

Section ExporterCube.
Context `{Seismiqb}.
Open Scope list_scope.

Lemma export_axis_log (cfg : SliceExporter.Config)
    (geometry : Geometry) (cube_dir : string) (i : nat) (idx : string)
    (s s' : Run) :
  SliceExporter.export_axis cfg geometry cube_dir (i, idx) s = (inr tt, s') ->
  exists E locations,
    lens geometry !! i = Some E
    /\ locs E (SliceExporter.N cfg) = inr locations
    /\ log s' = log s ++ axis_slides (SliceExporter.SHOW cfg) cube_dir i idx
                           locations.
Proof.
  unfold SliceExporter.export_axis. intros Hrun.
  apply bind_inr in Hrun as (E & s1 & HE & Hrun).
  apply lift_inr in HE as [HE ->].
  apply bind_inr in Hrun as (locations & s2 & Hl & Hrun).
  apply lift_inr in Hl as [Hl ->].
  unfold getitem in HE. destruct (lens geometry !! i) as [E'|]; [|discriminate].
  injection HE as ->.
  exists E, locations. split; [reflexivity|]. split; [assumption|].
  eapply export_slides_log; eassumption.
Qed.

Lemma export_axes_log (cfg : SliceExporter.Config) (geometry : Geometry)
    (cube_dir : string) (axes : list (nat * string)) (s s' : Run) :
  for_each axes (SliceExporter.export_axis cfg geometry cube_dir) s
  = (inr tt, s') ->
  exists evs, log s' = log s ++ evs
              /\ Forall (slide_into (SliceExporter.SHOW cfg) cube_dir) evs.
Proof.
  revert s. induction axes as [|[i idx] axes IH]; intros s Hrun.
  - injection Hrun as <-. exists []. rewrite app_nil_r.
    split; [reflexivity|constructor].
  - simpl in Hrun. apply bind_inr in Hrun as ([] & s1 & Haxis & Hrun).
    apply export_axis_log in Haxis as (E & locations & _ & _ & E1).
    apply IH in Hrun as (evs & E2 & Hevs).
    exists (axis_slides (SliceExporter.SHOW cfg) cube_dir i idx locations
            ++ evs).
    rewrite E2, E1, <- app_assoc. split; [reflexivity|].
    apply Forall_app. split; [|assumption].
    unfold axis_slides. apply Forall_fmap, Forall_forall.
    intros loc _. exists loc, i, idx. reflexivity.
Qed.

(** X16.  A cube that is exported completely has been handled in this
    order: the geometry is opened, the cube's directory
    [script_dir/short_name] is created (or found), when [SHOW] is on the
    banner line is printed twice and the geometry after the two banners, and
    nothing is printed when it is off, and then come the slides, every one
    of them saved inside that directory. *)
Theorem export_cube_record (cfg : SliceExporter.Config) (path_cube : string)
    (s s' : Run) :
  SliceExporter.export_cube cfg path_cube s = (inr tt, s') ->
  exists geometry w saved,
    new_geometry path_cube (world s) = (inr geometry, w)
    /\ let cube_dir := join "/" [SliceExporter.script_dir cfg;
                                 short_name geometry] in
       log s' = log s
                ++ [EvGeometry path_cube; EvMkdir cube_dir]
                ++ (if SliceExporter.SHOW cfg
                    then [EvPrint (py_repeat "▆" 130);
                          EvPrint (py_repeat "▆" 130);
                          EvPrint (geometry_str geometry)]
                    else [])
                ++ saved
       /\ Forall (slide_into (SliceExporter.SHOW cfg) cube_dir) saved.
Proof.
  unfold SliceExporter.export_cube. intros Hrun.
  apply bind_inr in Hrun as (geometry & s1 & Hgeo & Hrun).
  apply call_log in Hgeo as [E1 Hgeo].
  apply bind_inr in Hrun as ([] & s2 & Hdir & Hrun).
  apply mkdir_exist_ok_log in Hdir as E2.
  apply bind_inr in Hrun as ([] & s3 & Hshow & Hrun).
  apply export_axes_log in Hrun as (saved & E4 & Hsaved).
  exists geometry, (world s1), saved. split; [assumption|].
  cbv zeta. split; [|assumption].
  rewrite E4. unfold show_geometry in Hshow.
  destruct (SliceExporter.SHOW cfg).
  - apply bind_inr in Hshow as ([] & t1 & P1 & Hshow).
    apply bind_inr in Hshow as ([] & t2 & P2 & P3).
    apply call_log in P3 as [-> _]. apply call_log in P2 as [-> _].
    apply call_log in P1 as [-> _].
    rewrite E2, E1, <- !app_assoc. reflexivity.
  - injection Hshow as <-. rewrite E2, E1, <- !app_assoc. reflexivity.
Qed.

End ExporterCube.

Lemma export_cube_record_witness :
  let run := @SliceExporter.export_cube Toy.toy
               (SliceExporter.notebook_config ["cube_1"]) "cube_1" Toy.start in
  exists (geometry : @Geometry Toy.toy) (w : @World Toy.toy) saved,
    @new_geometry Toy.toy "cube_1" (world Toy.start) = (inr geometry, w)
    /\ let cube_dir := join "/" ["cube_demo"; short_name geometry] in
       log run.2
       = (log Toy.start
          ++ [EvGeometry "cube_1"; EvMkdir cube_dir]
          ++ (if false
              then [EvPrint (py_repeat "▆" 130);
                    EvPrint (py_repeat "▆" 130);
                    EvPrint (geometry_str geometry)]
              else [])
          ++ saved)%list
       /\ Forall (slide_into false cube_dir) saved.
Proof.
  intros run.
  apply (@export_cube_record Toy.toy
           (SliceExporter.notebook_config ["cube_1"]) "cube_1" Toy.start run.2).
  vm_compute. reflexivity.
Defined.
